(** * Topology aggregator of the 144network backend (src/backend/server.py)

    A shallow embedding of the in-memory topology kept by the Flask
    backend: the node and edge dictionaries, [aggregate_packet] (the
    ingestion path fed by the capture thread), and the two query routes
    [get_topology] and [get_stats].

    Modelling choices:
    - [topology['nodes']] is a [gmap string node]; each node dictionary
      ([first_seen], [last_seen], [packet_count]) is a record.  Node
      dictionaries are never shared between keys, so updating one in place
      is an [insert] of the updated record.
    - [topology['edges']] is a [defaultdict] keyed by the ordered pair
      [(src, dst)]; indexing a missing key inserts the default entry
      [{'count': 0, 'last_active': 0}] ([defaultdict_getitem]).
    - Indexing a plain [dict] with a missing key raises [KeyError]; the
      ingestion code is written in the option monad, [None] standing for
      that exception.
    - Timestamps ([time.time()] readings and packet timestamps) are
      integers [Z]; the code only subtracts and compares them.
    - The routes read the clock with [time.time()]; the reading is passed
      explicitly as [now].  [topology_lock] only serialises the critical
      sections, each of which is modelled as one atomic function. *)

From Stdlib Require Import ZArith List Sorted Lia Ascii.
From stdpp Require Import base gmap strings list fin_maps.
Import ListNotations.

Open Scope Z_scope.

(** ** Data model *)

(** [{'first_seen': now, 'last_seen': now, 'packet_count': 0}] *)
Record node := mk_node {
  first_seen : Z;
  last_seen : Z;
  packet_count : Z
}.

(** [{'count': 0, 'last_active': 0}] *)
Record edge := mk_edge {
  count : Z;
  last_active : Z
}.

(** The module-level [topology] dictionary. *)
Record topology := mk_topology {
  nodes : gmap string node;
  edges : gmap (string * string) edge
}.

(** A parsed packet: [{'src_ip': ..., 'dst_ip': ..., 'timestamp': ...}]. *)
Record packet := mk_packet {
  src_ip : string;
  dst_ip : string;
  timestamp : Z
}.

(** [topology = {'nodes': {}, 'edges': defaultdict(...)}] at start-up. *)
Definition empty_topology : topology := mk_topology ∅ ∅.

(** [STALE_THRESHOLD = 30] *)
Definition STALE_THRESHOLD : Z := 30.

(** ** Dictionary primitives *)

(** [d[k]] on a plain dict: [KeyError] ([None]) when [k] is missing. *)
Definition dict_getitem {K V} `{Countable K} (d : gmap K V) (k : K) : option V :=
  d !! k.

(** The factory of [topology['edges']]. *)
Definition edge_default : edge := mk_edge 0 0.

(** [d[k]] on the [defaultdict]: a missing key is first bound to the
    default value; the entry and the (possibly grown) dictionary are
    returned. *)
Definition defaultdict_getitem (d : gmap (string * string) edge) (k : string * string)
    : edge * gmap (string * string) edge :=
  match d !! k with
  | Some e => (e, d)
  | None => (edge_default, <[k := edge_default]> d)
  end.

(** ** [aggregate_packet] *)

(** One iteration of [for ip in [src, dst]:] *)
Definition touch_node (now : Z) (ns : gmap string node) (ip : string)
    : option (gmap string node) :=
  (* if ip not in topology['nodes']: topology['nodes'][ip] = {...} *)
  let ns := match ns !! ip with
            | None => <[ip := mk_node now now 0]> ns
            | Some _ => ns
            end in
  (* topology['nodes'][ip]['last_seen'] = now *)
  n ← dict_getitem ns ip;
  let ns := <[ip := mk_node (first_seen n) now (packet_count n)]> ns in
  (* topology['nodes'][ip]['packet_count'] += 1 *)
  n ← dict_getitem ns ip;
  Some (<[ip := mk_node (first_seen n) (last_seen n) (packet_count n + 1)]> ns).

(** [for ip in ips: ...] *)
Fixpoint touch_nodes (now : Z) (ips : list string) (ns : gmap string node)
    : option (gmap string node) :=
  match ips with
  | [] => Some ns
  | ip :: rest => ns' ← touch_node now ns ip; touch_nodes now rest ns'
  end.

Definition aggregate_packet (p : packet) (t : topology) : option topology :=
  let src := src_ip p in
  let dst := dst_ip p in
  let now := timestamp p in
  ns ← touch_nodes now [src; dst] (nodes t);
  let edge_key := (src, dst) in
  (* topology['edges'][edge_key]['count'] += 1 *)
  let '(e, es) := defaultdict_getitem (edges t) edge_key in
  let es := <[edge_key := mk_edge (count e + 1) (last_active e)]> es in
  (* topology['edges'][edge_key]['last_active'] = now *)
  let '(e, es) := defaultdict_getitem es edge_key in
  let es := <[edge_key := mk_edge (count e) now]> es in
  Some (mk_topology ns es).

(** The capture thread: [aggregate_packet] on each parsed packet in turn,
    an exception stopping the loop. *)
Fixpoint run (ps : list packet) (t : topology) : option topology :=
  match ps with
  | [] => Some t
  | p :: rest => t' ← aggregate_packet p t; run rest t'
  end.

(** ** Query routes *)

(** [{'ip': ip, 'packets': data['packet_count']}] *)
Record node_view := mk_node_view { ip : string; packets : Z }.

(** [{'source': src, 'target': dst, 'weight': data['count']}] *)
Record edge_view := mk_edge_view { source : string; target : string; weight : Z }.

(** [{'nodes': active_nodes, 'edges': active_edges, 'timestamp': now}] *)
Record topology_view := mk_topology_view {
  view_nodes : list node_view;
  view_edges : list edge_view;
  view_timestamp : Z
}.

(** [get_topology], [now] being the [time.time()] reading. *)
Definition get_topology (now : Z) (t : topology) : topology_view :=
  let active_nodes :=
    map (fun '(i, data) => mk_node_view i (packet_count data))
      (List.filter (fun '(_, data) => now - last_seen data <? STALE_THRESHOLD)
         (map_to_list (nodes t))) in
  let active_edges :=
    map (fun '((s, d), data) => mk_edge_view s d (count data))
      (List.filter (fun '(_, data) => now - last_active data <? STALE_THRESHOLD)
         (map_to_list (edges t))) in
  mk_topology_view active_nodes active_edges now.

(** [{'total_nodes': ..., 'active_connections': ..., 'total_packets': ...}] *)
Record stats := mk_stats {
  total_nodes : Z;
  active_connections : Z;
  total_packets : Z
}.

(** [sum(xs)] *)
Definition py_sum (xs : list Z) : Z := fold_right Z.add 0 xs.

(** [get_stats], [now] being the [time.time()] reading. *)
Definition get_stats (now : Z) (t : topology) : stats :=
  let total_nodes := Z.of_nat (size (nodes t)) in
  let active_connections :=
    py_sum (map (fun _ => 1)
      (List.filter (fun data => now - last_active data <? STALE_THRESHOLD)
         (map snd (map_to_list (edges t))))) in
  let total_packets :=
    py_sum (map (fun n => packet_count n) (map snd (map_to_list (nodes t)))) in
  mk_stats total_nodes active_connections total_packets.

(** ** The process as a state machine

    The capture thread and the request handlers act on the shared
    [topology] one critical section at a time.  A route takes no argument:
    it reads the clock ([clock]) and the module-level constant. *)
Inductive operation :=
  | OpAggregate (p : packet)
  | OpGetTopology
  | OpGetStats.

Inductive reply :=
  | RNone
  | RTopology (v : topology_view)
  | RStats (s : stats).

Definition step (clock : Z) (o : operation) (t : topology) : option (reply * topology) :=
  match o with
  | OpAggregate p => t' ← aggregate_packet p t; Some (RNone, t')
  | OpGetTopology => Some (RTopology (get_topology clock t), t)
  | OpGetStats => Some (RStats (get_stats clock t), t)
  end.

(** ** Sanity checks on the scenarios of the design notes *)

Example scenario_A :
  (t ← run [mk_packet "10.0.0.1" "10.0.0.2" 100] empty_topology;
   Some (get_topology 110 t))
  = Some (mk_topology_view
            [mk_node_view "10.0.0.1" 1; mk_node_view "10.0.0.2" 1]
            [mk_edge_view "10.0.0.1" "10.0.0.2" 1] 110)
  \/
  (t ← run [mk_packet "10.0.0.1" "10.0.0.2" 100] empty_topology;
   Some (get_topology 110 t))
  = Some (mk_topology_view
            [mk_node_view "10.0.0.2" 1; mk_node_view "10.0.0.1" 1]
            [mk_edge_view "10.0.0.1" "10.0.0.2" 1] 110).
Proof. vm_compute. auto. Qed.

Example scenario_B :
  (t ← run [mk_packet "10.0.0.1" "10.0.0.2" 100] empty_topology;
   Some (get_topology 140 t))
  = Some (mk_topology_view [] [] 140).
Proof. vm_compute. reflexivity. Qed.

(** ** The ingestion step as the design describes it

    A second definition, following the words of the design rather than the
    code, used to check that [aggregate_packet] refines it: each of
    [src_ip] and [dst_ip] gets a node (created with
    [first_seen = last_seen = timestamp], [packet_count = 0] if absent),
    whose [last_seen] is then set to the timestamp and whose
    [packet_count] is incremented; the edge [(src, dst)] (created with
    [count = 0] if absent) has its count incremented and its
    [last_active] set to the timestamp. *)
Definition spec_touch (ts : Z) (ns : gmap string node) (h : string) : gmap string node :=
  let n := match ns !! h with Some n => n | None => mk_node ts ts 0 end in
  <[h := mk_node (first_seen n) ts (packet_count n + 1)]> ns.

Definition ingest_spec (p : packet) (t : topology) : topology :=
  let ts := timestamp p in
  let k := (src_ip p, dst_ip p) in
  let c := match edges t !! k with Some e => count e | None => 0 end in
  mk_topology (spec_touch ts (spec_touch ts (nodes t) (src_ip p)) (dst_ip p))
              (<[k := mk_edge (c + 1) ts]> (edges t)).

(** ** Ingestion: the code refines the design *)

Lemma touch_node_spec now ns h :
  touch_node now ns h = Some (spec_touch now ns h).
Proof.
  unfold touch_node, spec_touch, dict_getitem.
  destruct (ns !! h) as [n|] eqn:E;
    repeat progress (simpl; rewrite ?E, ?lookup_insert_eq, ?insert_insert_eq);
    reflexivity.
Qed.

Lemma aggregate_packet_spec p t :
  aggregate_packet p t = Some (ingest_spec p t).
Proof.
  unfold aggregate_packet, ingest_spec, touch_nodes.
  rewrite !touch_node_spec. simpl.
  unfold defaultdict_getitem.
  destruct (edges t !! (src_ip p, dst_ip p)) as [e|] eqn:E;
    repeat progress (simpl; rewrite ?E, ?touch_node_spec, ?lookup_insert_eq, ?insert_insert_eq);
    reflexivity.
Qed.

Lemma spec_touch_lookup_eq ts ns h :
  spec_touch ts ns h !! h =
    Some (match ns !! h with
          | Some n => mk_node (first_seen n) ts (packet_count n + 1)
          | None => mk_node ts ts 1
          end).
Proof. unfold spec_touch. rewrite lookup_insert_eq. by destruct (ns !! h). Qed.

Lemma spec_touch_lookup_ne ts ns h h' :
  h <> h' -> spec_touch ts ns h !! h' = ns !! h'.
Proof. intros Hne. unfold spec_touch. by rewrite lookup_insert_ne. Qed.

Lemma ingest_spec_nodes_src p t :
  exists n, nodes (ingest_spec p t) !! src_ip p = Some n /\ last_seen n = timestamp p.
Proof.
  unfold ingest_spec; simpl.
  destruct (decide (src_ip p = dst_ip p)) as [->|Hne].
  - rewrite spec_touch_lookup_eq. by destruct (_ !! dst_ip p); eexists.
  - rewrite spec_touch_lookup_ne by congruence. rewrite spec_touch_lookup_eq.
    by destruct (_ !! src_ip p); eexists.
Qed.

Lemma ingest_spec_nodes_dst p t :
  exists n, nodes (ingest_spec p t) !! dst_ip p = Some n /\ last_seen n = timestamp p.
Proof.
  unfold ingest_spec; simpl. rewrite spec_touch_lookup_eq.
  by destruct (_ !! dst_ip p); eexists.
Qed.

Lemma ingest_spec_edge p t :
  exists e, edges (ingest_spec p t) !! (src_ip p, dst_ip p) = Some e
            /\ last_active e = timestamp p
            /\ count e = match edges t !! (src_ip p, dst_ip p) with
                         | Some e0 => count e0 + 1 | None => 1 end.
Proof.
  unfold ingest_spec; simpl. rewrite lookup_insert_eq.
  eexists; split; [reflexivity|]. simpl. by destruct (_ !! _).
Qed.

(** ** Claims about ingestion *)

(** C3: a self-loop event [(A, A, t)] ingested into the empty topology
    yields node [A] with [packet_count = 2] and edge [(A, A)] with
    [count = 1]. *)
Theorem self_loop_counts (a : string) (ts : Z) :
  exists t, run [mk_packet a a ts] empty_topology = Some t
    /\ (exists n, nodes t !! a = Some n /\ packet_count n = 2)
    /\ (exists e, edges t !! (a, a) = Some e /\ count e = 1).
Proof.
  simpl. rewrite aggregate_packet_spec. simpl.
  eexists; split; [reflexivity|]. unfold ingest_spec; simpl.
  rewrite spec_touch_lookup_eq, spec_touch_lookup_eq, lookup_empty.
  rewrite lookup_insert_eq, lookup_empty. simpl.
  split; eexists; split; reflexivity.
Qed.

(** C4: last write wins.  For every prior topology and every event
    [(src, dst, t)], after [aggregate_packet] the nodes of [src] and [dst]
    have [last_seen = t] and the edge [(src, dst)] has [last_active = t],
    whatever the previous values were (smaller or larger than [t]). *)
Theorem aggregate_last_write_wins (p : packet) (t : topology) :
  exists t', aggregate_packet p t = Some t'
    /\ (exists n, nodes t' !! src_ip p = Some n /\ last_seen n = timestamp p)
    /\ (exists n, nodes t' !! dst_ip p = Some n /\ last_seen n = timestamp p)
    /\ (exists e, edges t' !! (src_ip p, dst_ip p) = Some e
                  /\ last_active e = timestamp p).
Proof.
  exists (ingest_spec p t). split; [apply aggregate_packet_spec|].
  split; [apply ingest_spec_nodes_src|]. split; [apply ingest_spec_nodes_dst|].
  destruct (ingest_spec_edge p t) as (e & He & Ha & _). eauto.
Qed.

(** C5: [aggregate_packet] never raises on a well-formed triple: for
    non-empty [src_ip], [dst_ip] and any timestamp and topology, the
    ingestion step completes (no [KeyError]) with exactly the mutation of
    the design ([ingest_spec]), and each host string, whatever it is,
    becomes a key of the node mapping. *)
Theorem aggregate_never_fails (clock : Z) (p : packet) (t : topology)
    (Hsrc : src_ip p <> ""%string) (Hdst : dst_ip p <> ""%string) :
  step clock (OpAggregate p) t = Some (RNone, ingest_spec p t)
  /\ is_Some (nodes (ingest_spec p t) !! src_ip p)
  /\ is_Some (nodes (ingest_spec p t) !! dst_ip p).
Proof.
  simpl. rewrite aggregate_packet_spec. simpl. split; [reflexivity|].
  destruct (ingest_spec_nodes_src p t) as (n & Hn & _).
  destruct (ingest_spec_nodes_dst p t) as (n' & Hn' & _).
  split; eexists; eassumption.
Qed.

Lemma aggregate_never_fails_witness :
  (("garbage" <> ""%string) /\ ("10.0.0.2" <> ""%string))
  /\ step 0 (OpAggregate (mk_packet "garbage" "10.0.0.2" 5)) empty_topology
     = Some (RNone, ingest_spec (mk_packet "garbage" "10.0.0.2" 5) empty_topology)
  /\ is_Some (nodes (ingest_spec (mk_packet "garbage" "10.0.0.2" 5) empty_topology)
               !! "garbage"%string)
  /\ is_Some (nodes (ingest_spec (mk_packet "garbage" "10.0.0.2" 5) empty_topology)
               !! "10.0.0.2"%string).
Proof.
  split; [split; discriminate|].
  apply (aggregate_never_fails 0 (mk_packet "garbage" "10.0.0.2" 5) empty_topology);
    simpl; discriminate.
Defined.

(** ** Runs of the capture loop *)

Lemma run_cons p ps t : run (p :: ps) t = run ps (ingest_spec p t).
Proof. simpl. by rewrite aggregate_packet_spec. Qed.

Lemma run_some ps t : exists t', run ps t = Some t'.
Proof.
  revert t. induction ps as [|p ps IH]; intros t; [by eexists|].
  rewrite run_cons. apply IH.
Qed.

Lemma spec_touch_lookup ts ns h h' :
  spec_touch ts ns h !! h' =
    if decide (h = h')
    then Some (match ns !! h with
               | Some n => mk_node (first_seen n) ts (packet_count n + 1)
               | None => mk_node ts ts 1
               end)
    else ns !! h'.
Proof.
  case_decide as E; [subst; apply spec_touch_lookup_eq|].
  by apply spec_touch_lookup_ne.
Qed.

(** Nodes whose [first_seen <= last_seen <= bound]. *)
Definition nodes_ordered (bound : Z) (ns : gmap string node) : Prop :=
  forall h n, ns !! h = Some n -> first_seen n <= last_seen n <= bound.

Lemma spec_touch_ordered bound ts ns h :
  nodes_ordered bound ns -> bound <= ts -> nodes_ordered ts (spec_touch ts ns h).
Proof.
  intros Hord Hle h' n. rewrite spec_touch_lookup. case_decide as E.
  - intros [= <-]. destruct (ns !! h) as [n0|] eqn:E0; simpl; [|lia].
    specialize (Hord _ _ E0). lia.
  - intros Hn. specialize (Hord _ _ Hn). lia.
Qed.

Lemma run_ordered ps bound t t' :
  Sorted Z.le (map timestamp ps) -> HdRel Z.le bound (map timestamp ps) ->
  nodes_ordered bound (nodes t) -> run ps t = Some t' ->
  forall h n, nodes t' !! h = Some n -> first_seen n <= last_seen n.
Proof.
  revert bound t. induction ps as [|p ps IH]; intros bound t Hs Hhd Hord Hrun.
  - simpl in Hrun. injection Hrun as <-. intros h n Hn. specialize (Hord _ _ Hn). lia.
  - rewrite run_cons in Hrun. simpl in Hs, Hhd.
    apply Sorted_inv in Hs as [Hs Hhd']. apply HdRel_inv in Hhd.
    apply (IH (timestamp p) (ingest_spec p t)); try assumption.
    unfold ingest_spec; simpl.
    apply (spec_touch_ordered (timestamp p)); [|lia].
    by apply (spec_touch_ordered bound).
Qed.

(** Number of positions ([src_ip], [dst_ip]) of an event holding [h]. *)
Definition occurrences (h : string) (p : packet) : Z :=
  (if decide (src_ip p = h) then 1 else 0) + (if decide (dst_ip p = h) then 1 else 0).

(** Whether an event references [h] (as source or destination). *)
Definition references (h : string) (p : packet) : bool :=
  bool_decide (src_ip p = h) || bool_decide (dst_ip p = h).

(** [packet_count] of [h], [0] when [h] has no node. *)
Definition pc_of (ns : gmap string node) (h : string) : Z :=
  match ns !! h with Some n => packet_count n | None => 0 end.

Lemma spec_touch_pc ts ns h h' :
  pc_of (spec_touch ts ns h) h' = pc_of ns h' + (if decide (h = h') then 1 else 0).
Proof.
  unfold pc_of. rewrite spec_touch_lookup.
  case_decide as E; [subst; destruct (ns !! h'); simpl; lia | lia].
Qed.

Lemma run_pc ps t t' h :
  run ps t = Some t' ->
  pc_of (nodes t') h = pc_of (nodes t) h + py_sum (map (occurrences h) ps).
Proof.
  revert t. induction ps as [|p ps IH]; intros t Hrun.
  - simpl in Hrun. injection Hrun as <-. simpl. lia.
  - rewrite run_cons in Hrun. rewrite (IH _ Hrun). simpl.
    unfold ingest_spec, occurrences; simpl.
    rewrite !spec_touch_pc. repeat case_decide; subst; lia.
Qed.

Lemma occurrences_nonneg h p : 0 <= occurrences h p.
Proof. unfold occurrences. repeat case_decide; lia. Qed.

Lemma py_sum_occurrences_pos h ps :
  existsb (references h) ps = true -> 1 <= py_sum (map (occurrences h) ps).
Proof.
  induction ps as [|p ps IH]; simpl; [discriminate|].
  intros [Hp|Hps]%orb_true_iff.
  - assert (1 <= occurrences h p).
    { unfold references in Hp; unfold occurrences.
      apply orb_true_iff in Hp as [Hp|Hp]; apply bool_decide_eq_true in Hp;
        repeat case_decide; try lia; congruence. }
    assert (0 <= py_sum (map (occurrences h) ps)).
    { clear. induction ps; simpl; [lia|]. pose proof (occurrences_nonneg h a). lia. }
    lia.
  - specialize (IH Hps). pose proof (occurrences_nonneg h p). lia.
Qed.

(** Number of events of [ps] referencing [h], a self-loop counting once. *)
Definition count_references (h : string) (ps : list packet) : Z :=
  Z.of_nat (length (List.filter (references h) ps)).

(** ** Claims about runs of the capture loop *)

(** C1, as stated: for any sequence of events from the empty topology,
    with arbitrary timestamps, every node has [first_seen <= last_seen].
    Refuted: [(A, B, 100)] then [(A, C, 50)] leaves node [A] with
    [first_seen = 100] and [last_seen = 50]. *)
Lemma first_le_last_counterexample :
  ~ (forall ps t', run ps empty_topology = Some t' ->
       forall h n, nodes t' !! h = Some n -> first_seen n <= last_seen n).
Proof.
  intros H.
  specialize (H [mk_packet "A" "B" 100; mk_packet "A" "C" 50]).
  destruct (run_some [mk_packet "A" "B" 100; mk_packet "A" "C" 50] empty_topology)
    as [t' Ht'].
  specialize (H t' Ht' "A"%string (mk_node 100 50 2)).
  vm_compute in Ht'. injection Ht' as <-.
  specialize (H ltac:(vm_compute; reflexivity)). simpl in H. lia.
Qed.

(** C1, amended: when the events arrive with non-decreasing timestamps,
    every node of the resulting topology has [first_seen <= last_seen]. *)
Theorem first_le_last_sorted (ps : list packet) (t' : topology)
    (Hsorted : Sorted Z.le (map timestamp ps))
    (Hrun : run ps empty_topology = Some t') :
  forall h n, nodes t' !! h = Some n -> first_seen n <= last_seen n.
Proof.
  destruct ps as [|p ps].
  - simpl in Hrun. injection Hrun as <-. intros h n Hn. simpl in Hn. by rewrite lookup_empty in Hn.
  - apply (run_ordered (p :: ps) (timestamp p) empty_topology); try assumption.
    + simpl. constructor. lia.
    + intros h n Hn. simpl in Hn. by rewrite lookup_empty in Hn.
Qed.

Lemma first_le_last_sorted_witness :
  Sorted Z.le (map timestamp [mk_packet "A" "B" 50; mk_packet "A" "C" 100])
  /\ run [mk_packet "A" "B" 50; mk_packet "A" "C" 100] empty_topology
     = Some (ingest_spec (mk_packet "A" "C" 100)
               (ingest_spec (mk_packet "A" "B" 50) empty_topology))
  /\ (forall n, nodes (ingest_spec (mk_packet "A" "C" 100)
                   (ingest_spec (mk_packet "A" "B" 50) empty_topology)) !! "A"%string
                = Some n -> first_seen n <= last_seen n).
Proof.
  assert (Hs : Sorted Z.le (map timestamp [mk_packet "A" "B" 50; mk_packet "A" "C" 100])).
  { simpl. repeat constructor; lia. }
  assert (Hr : run [mk_packet "A" "B" 50; mk_packet "A" "C" 100] empty_topology
     = Some (ingest_spec (mk_packet "A" "C" 100)
               (ingest_spec (mk_packet "A" "B" 50) empty_topology))).
  { rewrite !run_cons. reflexivity. }
  split; [exact Hs|]. split; [exact Hr|].
  apply (first_le_last_sorted _ _ Hs Hr).
Defined.

(** C2, as stated: if exactly [N >= 1] events of a run from the empty
    topology reference [h], a self-loop counting as one event, the node of
    [h] has [packet_count = N].  Refuted by the single self-loop
    [(A, A, 0)]: one event references [A], its [packet_count] is 2. *)
Lemma packet_count_counterexample :
  ~ (forall h ps t', run ps empty_topology = Some t' ->
       1 <= count_references h ps ->
       exists n, nodes t' !! h = Some n /\ packet_count n = count_references h ps).
Proof.
  intros H.
  destruct (run_some [mk_packet "A" "A" 0] empty_topology) as [t' Ht'].
  destruct (H "A"%string _ _ Ht' ltac:(vm_compute; discriminate)) as (n & Hn & Hc).
  vm_compute in Ht'. injection Ht' as <-. vm_compute in Hn.
  injection Hn as <-. vm_compute in Hc. discriminate.
Qed.

(** C2, amended: after a run from the empty topology in which at least one
    event references [h], the node of [h] exists and its [packet_count] is
    the number of events with [src_ip = h] plus the number with
    [dst_ip = h] (a self-loop on [h] adds 2). *)
Theorem packet_count_occurrences (h : string) (ps : list packet) (t' : topology)
    (Hrun : run ps empty_topology = Some t')
    (Href : existsb (references h) ps = true) :
  exists n, nodes t' !! h = Some n
    /\ packet_count n
       = Z.of_nat (length (List.filter (fun p => bool_decide (src_ip p = h)) ps))
         + Z.of_nat (length (List.filter (fun p => bool_decide (dst_ip p = h)) ps)).
Proof.
  pose proof (run_pc ps empty_topology t' h Hrun) as Hpc.
  pose proof (py_sum_occurrences_pos h ps Href) as Hpos.
  unfold pc_of in Hpc. simpl in Hpc. rewrite lookup_empty in Hpc.
  destruct (nodes t' !! h) as [n|]; [|lia].
  exists n. split; [reflexivity|].
  transitivity (py_sum (map (occurrences h) ps)); [lia|].
  clear. unfold py_sum. induction ps as [|p ps IH]; [reflexivity|]. simpl.
  unfold occurrences at 1. rewrite IH.
  repeat case_bool_decide; repeat case_decide; simpl; try lia; congruence.
Qed.

Lemma packet_count_occurrences_witness :
  run [mk_packet "A" "A" 0] empty_topology
    = Some (ingest_spec (mk_packet "A" "A" 0) empty_topology)
  /\ existsb (references "A") [mk_packet "A" "A" 0] = true
  /\ exists n, nodes (ingest_spec (mk_packet "A" "A" 0) empty_topology) !! "A"%string = Some n
      /\ packet_count n = 1 + 1.
Proof.
  assert (Hr : run [mk_packet "A" "A" 0] empty_topology
               = Some (ingest_spec (mk_packet "A" "A" 0) empty_topology)).
  { rewrite run_cons. reflexivity. }
  assert (He : existsb (references "A") [mk_packet "A" "A" 0] = true) by reflexivity.
  split; [exact Hr|]. split; [exact He|].
  exact (packet_count_occurrences "A" _ _ Hr He).
Defined.

(** ** The query routes *)

Lemma get_topology_nodes_In now t h pc :
  In (mk_node_view h pc) (view_nodes (get_topology now t)) <->
  exists n, nodes t !! h = Some n /\ pc = packet_count n
            /\ now - last_seen n < STALE_THRESHOLD.
Proof.
  unfold get_topology; simpl. rewrite in_map_iff. split.
  - intros [[i d] [Heq Hin]]. simpl in Heq. injection Heq as <- <-.
    apply filter_In in Hin as [Hin Hb]. apply Z.ltb_lt in Hb.
    apply list_elem_of_In, elem_of_map_to_list in Hin. eauto.
  - intros (n & Hn & -> & Hlt). exists (h, n). split; [reflexivity|].
    apply filter_In. split; [|by apply Z.ltb_lt].
    by apply list_elem_of_In, elem_of_map_to_list.
Qed.

Lemma get_topology_edges_In now t s d w :
  In (mk_edge_view s d w) (view_edges (get_topology now t)) <->
  exists e, edges t !! (s, d) = Some e /\ w = count e
            /\ now - last_active e < STALE_THRESHOLD.
Proof.
  unfold get_topology; simpl. rewrite in_map_iff. split.
  - intros [[[s' d'] e] [Heq Hin]]. simpl in Heq. injection Heq as <- <- <-.
    apply filter_In in Hin as [Hin Hb]. apply Z.ltb_lt in Hb.
    apply list_elem_of_In, elem_of_map_to_list in Hin. eauto.
  - intros (e & He & -> & Hlt). exists ((s, d), e). split; [reflexivity|].
    apply filter_In. split; [|by apply Z.ltb_lt].
    by apply list_elem_of_In, elem_of_map_to_list.
Qed.

Lemma node_listed_iff now t h n :
  nodes t !! h = Some n ->
  (exists pc, In (mk_node_view h pc) (view_nodes (get_topology now t)))
  <-> now - last_seen n < STALE_THRESHOLD.
Proof.
  intros Hn. split.
  - intros [pc (n' & Hn' & _ & Hlt)%get_topology_nodes_In]. congruence.
  - intros Hlt. exists (packet_count n). apply get_topology_nodes_In. eauto.
Qed.

Lemma edge_listed_iff now t s d e :
  edges t !! (s, d) = Some e ->
  (exists w, In (mk_edge_view s d w) (view_edges (get_topology now t)))
  <-> now - last_active e < STALE_THRESHOLD.
Proof.
  intros He. split.
  - intros [w (e' & He' & _ & Hlt)%get_topology_edges_In]. congruence.
  - intros Hlt. exists (count e). apply get_topology_edges_In. eauto.
Qed.

(** The active edges of an edge mapping for a clock reading and a window,
    as a sub-mapping. *)
Definition active_edge_map (now window : Z) (es : gmap (string * string) edge)
    : gmap (string * string) edge :=
  filter (fun ke => now - last_active ke.2 < window) es.

Lemma filter_snd_length_perm {A B} (f : B -> bool) (l1 l2 : list (A * B)) :
  Permutation l1 l2 ->
  length (List.filter f (map snd l1)) = length (List.filter f (map snd l2)).
Proof.
  induction 1 as [|x l1 l2 _ IH|x y l|l1 l2 l3 _ IH1 _ IH2]; simpl.
  - reflexivity.
  - destruct (f x.2); simpl; lia.
  - destruct (f x.2), (f y.2); simpl; lia.
  - lia.
Qed.

Lemma py_sum_ones {A} (l : list A) : py_sum (map (fun _ => 1) l) = Z.of_nat (length l).
Proof. induction l as [|x l IH]; simpl; [reflexivity|]. rewrite IH. lia. Qed.

Lemma active_connections_size (now : Z) (es : gmap (string * string) edge) :
  length (List.filter (fun data => now - last_active data <? STALE_THRESHOLD)
            (map snd (map_to_list es)))
  = size (active_edge_map now STALE_THRESHOLD es).
Proof.
  unfold active_edge_map. induction es as [|k e es Hnone IH] using map_ind.
  - by rewrite map_to_list_empty, map_filter_empty, map_size_empty.
  - rewrite (filter_snd_length_perm _ _ _ (map_to_list_insert es k e Hnone)). simpl.
    destruct (now - last_active e <? STALE_THRESHOLD) eqn:Hb.
    + apply Z.ltb_lt in Hb. rewrite map_filter_insert_True by done.
      rewrite map_size_insert_None; [simpl; lia|].
      apply map_lookup_filter_None_2. by left.
    + apply Z.ltb_ge in Hb. rewrite map_filter_insert_False by (simpl; lia).
      by rewrite delete_id.
Qed.

Lemma py_sum_perm (l1 l2 : list Z) : Permutation l1 l2 -> py_sum l1 = py_sum l2.
Proof.
  induction 1 as [|x l1 l2 _ IH|x y l|l1 l2 l3 _ IH1 _ IH2]; simpl; lia.
Qed.

Lemma ingest_spec_existing p t h n :
  nodes t !! h = Some n ->
  exists n', nodes (ingest_spec p t) !! h = Some n'
    /\ first_seen n' = first_seen n
    /\ packet_count n' = packet_count n + occurrences h p.
Proof.
  intros Hn. destruct p as [s d ts]. unfold ingest_spec, occurrences; simpl.
  rewrite !spec_touch_lookup.
  repeat case_decide; subst; rewrite ?Hn; simpl; eexists; (split; [reflexivity|]);
    simpl; split; try lia; congruence.
Qed.

(** A topology holding the single event [(A, B, 0)]. *)
Definition topology_AB : topology := ingest_spec (mk_packet "A" "B" 0) empty_topology.

(** ** Claims about the query routes *)

(** C6, as stated: for every [now] and every [staleness_window], a node is
    listed by the topology route iff [now - last_seen < staleness_window].
    Refuted: the route always uses [STALE_THRESHOLD = 30], so with window
    40, node [A] last seen at 0 and [now = 35] is not listed although
    [35 < 40]. *)
Lemma staleness_filter_counterexample :
  ~ (forall (t : topology) (now window : Z) (h : string) (n : node),
       nodes t !! h = Some n ->
       (exists pc, In (mk_node_view h pc) (view_nodes (get_topology now t)))
       <-> now - last_seen n < window).
Proof.
  intros H.
  destruct (H topology_AB 35 40 "A"%string (mk_node 0 0 1)
              ltac:(vm_compute; reflexivity)) as [_ H'].
  destruct (H' ltac:(simpl; lia)) as [pc Hin]. vm_compute in Hin. exact Hin.
Qed.

(** C6, amended: with [now] the clock reading of the route and the fixed
    window [STALE_THRESHOLD = 30], a node is listed iff
    [now - last_seen < 30] and an edge iff [now - last_active < 30]
    (strict); an entity exactly 30 seconds old is not listed. *)
Theorem staleness_filter_strict (now : Z) (t : topology) :
  STALE_THRESHOLD = 30
  /\ (forall h n, nodes t !! h = Some n ->
        (exists pc, In (mk_node_view h pc) (view_nodes (get_topology now t)))
        <-> now - last_seen n < STALE_THRESHOLD)
  /\ (forall s d e, edges t !! (s, d) = Some e ->
        (exists w, In (mk_edge_view s d w) (view_edges (get_topology now t)))
        <-> now - last_active e < STALE_THRESHOLD)
  /\ (forall h n, nodes t !! h = Some n -> now - last_seen n = STALE_THRESHOLD ->
        ~ exists pc, In (mk_node_view h pc) (view_nodes (get_topology now t)))
  /\ (forall s d e, edges t !! (s, d) = Some e -> now - last_active e = STALE_THRESHOLD ->
        ~ exists w, In (mk_edge_view s d w) (view_edges (get_topology now t))).
Proof.
  split; [reflexivity|].
  split; [intros h n Hn; by apply node_listed_iff|].
  split; [intros s d e He; by apply edge_listed_iff|].
  split.
  - intros h n Hn Heq Hin. apply (node_listed_iff now t h n Hn) in Hin. lia.
  - intros s d e He Heq Hin. apply (edge_listed_iff now t s d e He) in Hin. lia.
Qed.

(** C7: for every state, the query routes leave the topology unchanged;
    and a node that the topology route no longer lists (stale) is still in
    the node mapping: a later event referencing its host updates that
    entry, keeping its [first_seen] and adding to its [packet_count]. *)
Theorem staleness_non_destructive :
  (forall (clock : Z) (t : topology),
     step clock OpGetTopology t = Some (RTopology (get_topology clock t), t)
     /\ step clock OpGetStats t = Some (RStats (get_stats clock t), t))
  /\ (forall (clock : Z) (t : topology) (p : packet) (h : string) (n : node),
       nodes t !! h = Some n ->
       STALE_THRESHOLD <= clock - last_seen n ->
       src_ip p = h \/ dst_ip p = h ->
       ~ (exists pc, In (mk_node_view h pc) (view_nodes (get_topology clock t)))
       /\ exists t' n', step clock (OpAggregate p) t = Some (RNone, t')
            /\ nodes t' !! h = Some n'
            /\ first_seen n' = first_seen n
            /\ packet_count n' = packet_count n + occurrences h p
            /\ 1 <= occurrences h p).
Proof.
  split; [intros clock t; split; reflexivity|].
  intros clock t p h n Hn Hstale Href. split.
  - intros Hin. apply (node_listed_iff clock t h n Hn) in Hin. lia.
  - destruct (ingest_spec_existing p t h n Hn) as (n' & Hn' & Hf & Hc).
    exists (ingest_spec p t), n'. simpl. rewrite aggregate_packet_spec.
    split; [reflexivity|]. repeat (split; [assumption|]).
    unfold occurrences. destruct Href; repeat case_decide; try lia; congruence.
Qed.

Lemma staleness_non_destructive_witness :
  step 100 OpGetTopology empty_topology
    = Some (RTopology (get_topology 100 empty_topology), empty_topology)
  /\ exists t' n',
    step 100 (OpAggregate (mk_packet "A" "C" 100)) topology_AB = Some (RNone, t')
    /\ nodes t' !! "A"%string = Some n' /\ first_seen n' = 0 /\ packet_count n' = 1 + 1.
Proof.
  split; [exact (proj1 (proj1 staleness_non_destructive 100 empty_topology))|].
  destruct (proj2 staleness_non_destructive 100 topology_AB (mk_packet "A" "C" 100)
              "A"%string (mk_node 0 0 1) ltac:(vm_compute; reflexivity)
              ltac:(vm_compute; discriminate) ltac:(left; reflexivity))
    as (_ & t' & n' & Hs & Hn' & Hf & Hc & _).
  exists t', n'. repeat split; assumption.
Defined.

(** ** Repeated events on one ordered pair *)

Lemma ingest_pair_first (a b : string) (ts : Z) :
  a <> b ->
  ingest_spec (mk_packet a b ts) empty_topology
  = mk_topology (<[b := mk_node ts ts 1]> (<[a := mk_node ts ts 1]> ∅))
                {[(a, b) := mk_edge 1 ts]}.
Proof.
  intros Hab. unfold ingest_spec, spec_touch; simpl.
  rewrite lookup_empty, lookup_insert_ne, lookup_empty by done. reflexivity.
Qed.

Lemma ingest_pair_next (a b : string) (f l j ts : Z) :
  a <> b ->
  ingest_spec (mk_packet a b ts)
    (mk_topology (<[b := mk_node f l j]> (<[a := mk_node f l j]> ∅))
                 {[(a, b) := mk_edge j l]})
  = mk_topology (<[b := mk_node f ts (j + 1)]> (<[a := mk_node f ts (j + 1)]> ∅))
                {[(a, b) := mk_edge (j + 1) ts]}.
Proof.
  intros Hab. unfold ingest_spec, spec_touch; simpl.
  rewrite (lookup_insert_ne _ b a) by done. rewrite lookup_insert_eq.
  rewrite (lookup_insert_ne _ a b) by done. rewrite lookup_insert_eq.
  rewrite lookup_singleton_eq, insert_singleton_eq. simpl. f_equal.
  apply map_eq. intros k. rewrite !lookup_insert.
  repeat case_decide; subst; congruence.
Qed.

Lemma get_stats_pair (now : Z) (a b : string) (na nb : node) (e : edge) :
  a <> b ->
  get_stats now (mk_topology (<[b := nb]> (<[a := na]> ∅)) {[(a, b) := e]})
  = mk_stats 2 (if now - last_active e <? STALE_THRESHOLD then 1 else 0)
             (packet_count na + packet_count nb).
Proof.
  intros Hab. unfold get_stats; simpl. f_equal.
  - rewrite map_size_insert_None by (rewrite lookup_insert_ne, lookup_empty by done; done).
    rewrite map_size_insert_None by apply lookup_empty. by rewrite map_size_empty.
  - rewrite map_to_list_singleton. simpl.
    by destruct (now - last_active e <? STALE_THRESHOLD).
  - assert (Hp : map_to_list (<[b := nb]> (<[a := na]> ∅ : gmap string node))
                 ≡ₚ [(b, nb); (a, na)]).
    { rewrite map_to_list_insert
        by (rewrite lookup_insert_ne, lookup_empty by done; done).
      rewrite map_to_list_insert by apply lookup_empty.
      by rewrite map_to_list_empty. }
    rewrite (py_sum_perm _ [packet_count nb; packet_count na]).
    + simpl. lia.
    + by rewrite Hp.
Qed.

(** Scenario C: the ordered pair [(a, b)], [a <> b], ingested five times
    into the empty topology, queried while the last event is within the
    window. *)
Lemma scenario_C_stats (now : Z) (a b : string) (ts1 ts2 ts3 ts4 ts5 : Z) :
  a <> b -> now - ts5 < STALE_THRESHOLD ->
  exists t', run [mk_packet a b ts1; mk_packet a b ts2; mk_packet a b ts3;
                  mk_packet a b ts4; mk_packet a b ts5] empty_topology = Some t'
    /\ get_stats now t' = mk_stats 2 1 10.
Proof.
  intros Hab Hin. rewrite !run_cons. simpl.
  eexists; split; [reflexivity|].
  rewrite ingest_pair_first, !ingest_pair_next by done.
  rewrite get_stats_pair by done. simpl.
  apply Z.ltb_lt in Hin. by rewrite Hin.
Qed.

(** C8, as stated: for every [now] and [staleness_window], the stats
    route counts the edges with [now - last_active < staleness_window].
    Refuted: the route always uses [STALE_THRESHOLD = 30]; with window 40
    the edge [(A, B)] last active at 0 is active at [now = 35], yet
    [active_connections = 0]. *)
Lemma stats_window_counterexample :
  ~ (forall (now window : Z) (t : topology),
       active_connections (get_stats now t)
       = Z.of_nat (size (active_edge_map now window (edges t)))).
Proof.
  intros H. specialize (H 35 40 topology_AB). vm_compute in H. discriminate.
Qed.

(** C8, amended: the stats route reports [total_nodes] = size of the whole
    node mapping and [total_packets] = sum of [packet_count] over all nodes
    (neither depends on the clock reading), and [active_connections] = the
    number of edges with [now - last_active < STALE_THRESHOLD] (30);
    Scenario C: the pair [(a, b)], [a <> b], ingested five times from the
    empty topology gives [total_nodes = 2], [active_connections = 1] and
    [total_packets = 10] while the last event is within the window. *)
Theorem stats_totals (now : Z) (t : topology) :
  total_nodes (get_stats now t) = Z.of_nat (size (nodes t))
  /\ active_connections (get_stats now t)
     = Z.of_nat (size (active_edge_map now STALE_THRESHOLD (edges t)))
  /\ total_packets (get_stats now t)
     = py_sum (map (fun kn => packet_count kn.2) (map_to_list (nodes t)))
  /\ (forall now', total_nodes (get_stats now' t) = total_nodes (get_stats now t)
                   /\ total_packets (get_stats now' t) = total_packets (get_stats now t))
  /\ (forall (a b : string) (ts1 ts2 ts3 ts4 ts5 : Z),
        a <> b -> now - ts5 < STALE_THRESHOLD ->
        exists t', run [mk_packet a b ts1; mk_packet a b ts2; mk_packet a b ts3;
                        mk_packet a b ts4; mk_packet a b ts5] empty_topology = Some t'
          /\ get_stats now t' = mk_stats 2 1 10).
Proof.
  split; [reflexivity|]. split.
  { unfold get_stats; simpl. by rewrite py_sum_ones, active_connections_size. }
  split.
  { unfold get_stats; simpl. by rewrite map_map. }
  split; [intros; split; reflexivity|].
  intros. by apply scenario_C_stats.
Qed.

(** C9, as stated: the routes take [now] and the staleness window from the
    caller, so that every pair ([now], window) can be requested.  Refuted:
    the only input of the topology route is the clock reading, which
    becomes the reply's [timestamp], and its window is 30; asking for
    [now = 35] with window 40 on the topology [(A, B, 0)] would list [A],
    which no clock reading produces. *)
Lemma query_parameters_counterexample :
  ~ (forall (t : topology) (now window : Z), exists clock,
       view_timestamp (get_topology clock t) = now
       /\ forall h pc, In (mk_node_view h pc) (view_nodes (get_topology clock t))
          <-> exists n, nodes t !! h = Some n /\ pc = packet_count n
                        /\ now - last_seen n < window).
Proof.
  intros H. destruct (H topology_AB 35 40) as (clock & Hts & Hin).
  simpl in Hts. subst clock.
  destruct (Hin "A"%string 1) as [_ HA].
  assert (Hl : In (mk_node_view "A" 1) (view_nodes (get_topology 35 topology_AB))).
  { apply HA. exists (mk_node 0 0 1).
    split; [vm_compute; reflexivity|]. split; [reflexivity|]. simpl; lia. }
  vm_compute in Hl. exact Hl.
Qed.

(** C9, amended: the routes take no argument.  Each reads [now] from the
    clock when it runs (the [clock] of [step]) and filters with the
    module-level constant [STALE_THRESHOLD = 30]; the topology route also
    echoes [now] as its reply's [timestamp] (the stats reply has no
    timestamp field).  Neither [now] nor the window can be supplied or
    overridden per call. *)
Theorem queries_read_clock (clock : Z) (t : topology) :
  step clock OpGetTopology t = Some (RTopology (get_topology clock t), t)
  /\ step clock OpGetStats t = Some (RStats (get_stats clock t), t)
  /\ STALE_THRESHOLD = 30
  /\ view_timestamp (get_topology clock t) = clock
  /\ (forall h pc, In (mk_node_view h pc) (view_nodes (get_topology clock t))
      <-> exists n, nodes t !! h = Some n /\ pc = packet_count n
                    /\ clock - last_seen n < 30)
  /\ (forall s d w, In (mk_edge_view s d w) (view_edges (get_topology clock t))
      <-> exists e, edges t !! (s, d) = Some e /\ w = count e
                    /\ clock - last_active e < 30)
  /\ active_connections (get_stats clock t)
     = Z.of_nat (size (active_edge_map clock 30 (edges t))).
Proof.
  split; [reflexivity|]. split; [reflexivity|]. split; [reflexivity|].
  split; [reflexivity|].
  split; [intros; apply get_topology_nodes_In|].
  split; [intros; apply get_topology_edges_In|].
  unfold get_stats; simpl. by rewrite py_sum_ones, active_connections_size.
Qed.

(** C10: an active edge can have an endpoint that is not an active node.
    After [(A, B, 100)] then [(A, C, 50)], node [A] has [last_seen = 50]
    while edge [(A, B)] has [last_active = 100]; at [now = 110] (window
    30) the edge [(A, B)] is listed and node [A] is not. *)
Theorem edge_without_endpoint :
  exists ps t' now,
    run ps empty_topology = Some t'
    /\ exists s d w,
         In (mk_edge_view s d w) (view_edges (get_topology now t'))
         /\ ~ (exists pc, In (mk_node_view s pc) (view_nodes (get_topology now t'))).
Proof.
  exists [mk_packet "A" "B" 100; mk_packet "A" "C" 50].
  exists (ingest_spec (mk_packet "A" "C" 50) (ingest_spec (mk_packet "A" "B" 100) empty_topology)).
  exists 110.
  split; [rewrite !run_cons; reflexivity|].
  exists "A"%string, "B"%string, 1. split.
  - apply get_topology_edges_In. exists (mk_edge 1 100).
    split; [vm_compute; reflexivity|]. split; [reflexivity|].
    unfold STALE_THRESHOLD; simpl; lia.
  - intros [pc (n & Hn & _ & Hlt)%get_topology_nodes_In].
    vm_compute in Hn. injection Hn as <-. unfold STALE_THRESHOLD in Hlt. simpl in Hlt. lia.
Qed.

(** * Further properties of the aggregator *)

(** ** Sums over a mapping, and quantities folded over the events *)

(** [sum(f(k, v) for k, v in d.items())] *)
Definition msum {K V} `{Countable K} (f : K * V -> Z) (m : gmap K V) : Z :=
  py_sum (map f (map_to_list m)).

(** Weight of the edges touching [h]: counts of the edges out of [h] plus
    counts of the edges into [h] (a self-loop contributes twice). *)
Definition edge_weight (es : gmap (string * string) edge) (h : string) : Z :=
  msum (fun '((s, d), e) => (if decide (s = h) then count e else 0)
                            + (if decide (d = h) then count e else 0)) es.

(** [count] of the edge [k], [0] when there is none. *)
Definition edge_count_of (es : gmap (string * string) edge) (k : string * string) : Z :=
  match es !! k with Some e => count e | None => 0 end.

(** Number of events of [ps] on the ordered pair [k]. *)
Definition pair_events (k : string * string) (ps : list packet) : Z :=
  py_sum (map (fun p => if decide ((src_ip p, dst_ip p) = k) then 1 else 0) ps).

(** Every host of every event, in order. *)
Definition hosts (ps : list packet) : list string :=
  concat (map (fun p => [src_ip p; dst_ip p]) ps).

(** Timestamp of the first / last event of [ps] referencing [h]. *)
Fixpoint first_ts (h : string) (ps : list packet) : option Z :=
  match ps with
  | [] => None
  | p :: ps => if references h p then Some (timestamp p) else first_ts h ps
  end.

Fixpoint last_ts (h : string) (ps : list packet) : option Z :=
  match ps with
  | [] => None
  | p :: ps =>
      match last_ts h ps with
      | Some l => Some l
      | None => if references h p then Some (timestamp p) else None
      end
  end.

(** Timestamp of the last event of [ps] on the ordered pair [k]. *)
Fixpoint pair_last_ts (k : string * string) (ps : list packet) : option Z :=
  match ps with
  | [] => None
  | p :: ps =>
      match pair_last_ts k ps with
      | Some l => Some l
      | None => if decide ((src_ip p, dst_ip p) = k) then Some (timestamp p) else None
      end
  end.

Lemma msum_insert {K V} `{Countable K} (f : K * V -> Z) (m : gmap K V) k v :
  msum f (<[k := v]> m)
  = msum f m - (match m !! k with Some v0 => f (k, v0) | None => 0 end) + f (k, v).
Proof.
  unfold msum. destruct (m !! k) as [v0|] eqn:E.
  - rewrite <- (insert_delete_id m k v0 E) at 2. rewrite <- (insert_delete_eq m k v).
    rewrite (py_sum_perm _ _ (Permutation_map f (map_to_list_insert (delete k m) k v
              (lookup_delete_eq m k)))).
    rewrite (py_sum_perm _ _ (Permutation_map f (map_to_list_insert (delete k m) k v0
              (lookup_delete_eq m k)))).
    simpl. lia.
  - rewrite (py_sum_perm _ _ (Permutation_map f (map_to_list_insert m k v E))).
    simpl. lia.
Qed.

Lemma msum_empty {K V} `{Countable K} (f : K * V -> Z) : msum f (∅ : gmap K V) = 0.
Proof. unfold msum. by rewrite map_to_list_empty. Qed.

(** A quantity that each ingested event changes by [c p] changes by the
    sum of [c] over a run. *)
Lemma run_additive (g : topology -> Z) (c : packet -> Z) :
  (forall p t, g (ingest_spec p t) = g t + c p) ->
  forall ps t t', run ps t = Some t' -> g t' = g t + py_sum (map c ps).
Proof.
  intros Hstep ps. induction ps as [|p ps IH]; intros t t' Hrun.
  - simpl in Hrun. injection Hrun as <-. simpl. lia.
  - rewrite run_cons in Hrun. rewrite (IH _ _ Hrun), Hstep. simpl. lia.
Qed.

Lemma py_sum_const_one {A} (l : list A) : py_sum (map (fun _ => 1) l) = Z.of_nat (length l).
Proof. apply py_sum_ones. Qed.

(** ** One ingestion step *)

Lemma ingest_pc p t h :
  pc_of (nodes (ingest_spec p t)) h = pc_of (nodes t) h + occurrences h p.
Proof.
  unfold ingest_spec, occurrences; simpl. rewrite !spec_touch_pc.
  repeat case_decide; subst; lia.
Qed.

Lemma ingest_total_packets p t :
  msum (fun kn => packet_count kn.2) (nodes (ingest_spec p t))
  = msum (fun kn => packet_count kn.2) (nodes t) + 2.
Proof.
  unfold ingest_spec, spec_touch; simpl. rewrite !msum_insert.
  destruct (nodes t !! src_ip p) eqn:E1; simpl;
    [rewrite lookup_insert | rewrite lookup_insert];
    case_decide as Hsd; subst; simpl; rewrite ?E1;
    try (destruct (nodes t !! dst_ip p)); simpl; lia.
Qed.

Lemma ingest_edge_total p t :
  msum (fun ke => count ke.2) (edges (ingest_spec p t))
  = msum (fun ke => count ke.2) (edges t) + 1.
Proof.
  unfold ingest_spec; simpl. rewrite msum_insert.
  destruct (edges t !! _); simpl; lia.
Qed.

Lemma ingest_edge_weight p t h :
  edge_weight (edges (ingest_spec p t)) h = edge_weight (edges t) h + occurrences h p.
Proof.
  unfold edge_weight, ingest_spec, occurrences; simpl. rewrite msum_insert.
  destruct (edges t !! _); simpl; repeat case_decide; lia.
Qed.

Lemma ingest_edge_count p t k :
  edge_count_of (edges (ingest_spec p t)) k
  = edge_count_of (edges t) k + (if decide ((src_ip p, dst_ip p) = k) then 1 else 0).
Proof.
  unfold edge_count_of, ingest_spec; simpl. rewrite lookup_insert.
  case_decide as E; [subst; destruct (edges t !! _); simpl; lia | lia].
Qed.

Lemma ingest_first_seen p t h :
  option_map first_seen (nodes (ingest_spec p t) !! h)
  = match nodes t !! h with
    | Some n => Some (first_seen n)
    | None => if references h p then Some (timestamp p) else None
    end.
Proof.
  destruct p as [s d ts]. unfold ingest_spec, references; simpl.
  rewrite !spec_touch_lookup.
  repeat case_decide; subst; simpl;
    repeat (rewrite ?bool_decide_eq_true_2 by done; rewrite ?bool_decide_eq_false_2 by done);
    simpl; try done; destruct (nodes t !! _); done.
Qed.

Lemma ingest_last_seen p t h :
  option_map last_seen (nodes (ingest_spec p t) !! h)
  = if references h p then Some (timestamp p) else option_map last_seen (nodes t !! h).
Proof.
  destruct p as [s d ts]. unfold ingest_spec, references; simpl.
  rewrite !spec_touch_lookup.
  repeat case_decide; subst; simpl;
    repeat (rewrite ?bool_decide_eq_true_2 by done; rewrite ?bool_decide_eq_false_2 by done);
    simpl; try done; destruct (nodes t !! _); done.
Qed.

Lemma ingest_last_active p t k :
  option_map last_active (edges (ingest_spec p t) !! k)
  = if decide ((src_ip p, dst_ip p) = k) then Some (timestamp p)
    else option_map last_active (edges t !! k).
Proof.
  unfold ingest_spec; simpl. rewrite lookup_insert. by case_decide.
Qed.

Lemma spec_touch_dom ts (ns : gmap string node) h :
  dom (spec_touch ts ns h) = {[h]} ∪ dom ns.
Proof. unfold spec_touch. apply dom_insert_L. Qed.

Lemma ingest_dom_nodes p t :
  dom (nodes (ingest_spec p t)) = {[dst_ip p]} ∪ ({[src_ip p]} ∪ dom (nodes t)).
Proof. unfold ingest_spec; simpl. by rewrite !spec_touch_dom. Qed.

Lemma ingest_edges_lookup_ne p t k :
  k <> (src_ip p, dst_ip p) -> edges (ingest_spec p t) !! k = edges t !! k.
Proof. intros Hk. unfold ingest_spec; simpl. by rewrite lookup_insert_ne by congruence. Qed.

Lemma ingest_nodes_lookup_ne p t h :
  h <> src_ip p -> h <> dst_ip p -> nodes (ingest_spec p t) !! h = nodes t !! h.
Proof.
  intros H1 H2. unfold ingest_spec; simpl.
  rewrite !spec_touch_lookup_ne by congruence. reflexivity.
Qed.

Lemma ingest_nodes_grow p t h :
  is_Some (nodes t !! h) -> is_Some (nodes (ingest_spec p t) !! h).
Proof.
  intros Hs. unfold ingest_spec; simpl. rewrite !spec_touch_lookup.
  repeat case_decide; try done.
Qed.

(** Counts of reachable states are positive. *)
Definition counts_positive (t : topology) : Prop :=
  (forall h n, nodes t !! h = Some n -> 1 <= packet_count n)
  /\ (forall k e, edges t !! k = Some e -> 1 <= count e).

(** Every edge's endpoints have a node. *)
Definition endpoints_known (t : topology) : Prop :=
  forall s d e, edges t !! (s, d) = Some e ->
    is_Some (nodes t !! s) /\ is_Some (nodes t !! d).

Lemma ingest_counts_positive p t :
  counts_positive t -> counts_positive (ingest_spec p t).
Proof.
  intros [Hn He]. split.
  - intros h n. unfold ingest_spec; simpl. rewrite !spec_touch_lookup.
    repeat case_decide; subst; intros Hl; try (injection Hl as <-); simpl;
      repeat match goal with
      | |- context [nodes t !! ?x] => destruct (nodes t !! x) eqn:?
      end; simpl; eauto;
      repeat match goal with
      | H : nodes t !! _ = Some _ |- _ => apply Hn in H
      end; simpl in *; lia.
  - intros k e. unfold ingest_spec; simpl. rewrite lookup_insert.
    case_decide; [intros [= <-]; simpl; destruct (edges t !! _) eqn:E;
                  [apply He in E|]; lia | eauto].
Qed.

Lemma ingest_endpoints_known p t :
  endpoints_known t -> endpoints_known (ingest_spec p t).
Proof.
  intros Hk s d e. destruct (decide ((s, d) = (src_ip p, dst_ip p))) as [Heq|Hne].
  - injection Heq as -> ->. intros _.
    destruct (ingest_spec_nodes_src p t) as (n1 & H1 & _).
    destruct (ingest_spec_nodes_dst p t) as (n2 & H2 & _). by split; eexists.
  - rewrite ingest_edges_lookup_ne by done. intros He.
    destruct (Hk _ _ _ He). split; by apply ingest_nodes_grow.
Qed.

(** ** Runs of the capture loop, continued *)

Lemma run_preserves (P : topology -> Prop) :
  (forall p t, P t -> P (ingest_spec p t)) ->
  forall ps t t', P t -> run ps t = Some t' -> P t'.
Proof.
  intros Hstep ps. induction ps as [|p ps IH]; intros t t' Ht Hrun.
  - simpl in Hrun. by injection Hrun as <-.
  - rewrite run_cons in Hrun. eapply IH; [|exact Hrun]. by apply Hstep.
Qed.

Lemma run_first_last ps t t' h :
  run ps t = Some t' ->
  option_map first_seen (nodes t' !! h)
    = match option_map first_seen (nodes t !! h) with
      | Some f => Some f | None => first_ts h ps end
  /\ option_map last_seen (nodes t' !! h)
    = match last_ts h ps with
      | Some l => Some l | None => option_map last_seen (nodes t !! h) end.
Proof.
  revert t. induction ps as [|p ps IH]; intros t Hrun.
  - simpl in Hrun. injection Hrun as <-. simpl.
    split; by destruct (nodes t !! h).
  - rewrite run_cons in Hrun. destruct (IH _ Hrun) as [Hf Hl].
    rewrite ingest_first_seen in Hf. rewrite ingest_last_seen in Hl.
    split.
    + rewrite Hf. simpl. destruct (nodes t !! h); simpl; [done|].
      by destruct (references h p).
    + rewrite Hl. simpl. destruct (last_ts h ps); [done|].
      by destruct (references h p).
Qed.

Lemma run_last_active ps t t' k :
  run ps t = Some t' ->
  option_map last_active (edges t' !! k)
    = match pair_last_ts k ps with
      | Some l => Some l | None => option_map last_active (edges t !! k) end.
Proof.
  revert t. induction ps as [|p ps IH]; intros t Hrun.
  - simpl in Hrun. injection Hrun as <-. reflexivity.
  - rewrite run_cons in Hrun. rewrite (IH _ Hrun), ingest_last_active. simpl.
    destruct (pair_last_ts k ps); [done|]. by case_decide.
Qed.

Lemma run_dom ps t t' :
  run ps t = Some t' -> dom (nodes t') = list_to_set (hosts ps) ∪ dom (nodes t).
Proof.
  revert t. induction ps as [|p ps IH]; intros t Hrun.
  - simpl in Hrun. injection Hrun as <-. simpl. set_solver.
  - rewrite run_cons in Hrun. rewrite (IH _ Hrun), ingest_dom_nodes.
    unfold hosts; simpl. set_solver.
Qed.

Lemma empty_counts_positive : counts_positive empty_topology.
Proof. split; intros ?? H; simpl in H; by rewrite lookup_empty in H. Qed.

Lemma empty_endpoints_known : endpoints_known empty_topology.
Proof. intros ??? H; simpl in H; by rewrite lookup_empty in H. Qed.

(** ** Extra properties: ingestion *)

(** [aggregate_packet] touches only the nodes of its two hosts and the edge
    of its ordered pair: every other node and every other edge, the
    reverse edge [(dst, src)] included, is left as it was. *)
Theorem aggregate_frame (p : packet) (t : topology) :
  exists t', aggregate_packet p t = Some t'
    /\ (forall h, h <> src_ip p -> h <> dst_ip p -> nodes t' !! h = nodes t !! h)
    /\ (forall k, k <> (src_ip p, dst_ip p) -> edges t' !! k = edges t !! k).
Proof.
  exists (ingest_spec p t). split; [apply aggregate_packet_spec|]. split.
  - intros h H1 H2. by apply ingest_nodes_lookup_ne.
  - intros k Hk. by apply ingest_edges_lookup_ne.
Qed.

(** From the empty topology, whatever the events, every edge's source
    and target hosts have a node. *)
Theorem reachable_endpoints_known (ps : list packet) :
  exists t', run ps empty_topology = Some t'
    /\ forall s d e, edges t' !! (s, d) = Some e ->
         is_Some (nodes t' !! s) /\ is_Some (nodes t' !! d).
Proof.
  destruct (run_some ps empty_topology) as [t' Ht']. exists t'. split; [done|].
  exact (run_preserves endpoints_known ingest_endpoints_known ps _ _
           empty_endpoints_known Ht').
Qed.

(** From the empty topology every node has [packet_count >= 1] and every
    edge [count >= 1]. *)
Theorem reachable_counts_positive (ps : list packet) :
  exists t', run ps empty_topology = Some t'
    /\ (forall h n, nodes t' !! h = Some n -> 1 <= packet_count n)
    /\ (forall k e, edges t' !! k = Some e -> 1 <= count e).
Proof.
  destruct (run_some ps empty_topology) as [t' Ht']. exists t'. split; [done|].
  exact (run_preserves counts_positive ingest_counts_positive ps _ _
           empty_counts_positive Ht').
Qed.

(** From the empty topology, the edge [k] exists iff some event was on the
    ordered pair [k]; its [count] is the number of such events and its
    [last_active] the timestamp of the last one. *)
Theorem edges_from_events (ps : list packet) :
  exists t', run ps empty_topology = Some t'
    /\ forall k,
         (edges t' !! k = None <-> pair_events k ps = 0)
         /\ (forall e, edges t' !! k = Some e ->
               count e = pair_events k ps /\ pair_last_ts k ps = Some (last_active e)).
Proof.
  destruct (run_some ps empty_topology) as [t' Ht']. exists t'. split; [done|].
  intros k.
  pose proof (run_additive (fun t => edge_count_of (edges t) k)
                (fun p => if decide ((src_ip p, dst_ip p) = k) then 1 else 0)
                (fun p t => ingest_edge_count p t k) ps _ _ Ht') as Hc.
  pose proof (run_preserves counts_positive ingest_counts_positive ps _ _
                empty_counts_positive Ht') as [_ Hpos].
  pose proof (run_last_active ps _ _ k Ht') as Hl.
  unfold edge_count_of in Hc. simpl in Hc, Hl. rewrite lookup_empty in Hc, Hl.
  fold (pair_events k ps) in Hc. split.
  - destruct (edges t' !! k) as [e|] eqn:E.
    + specialize (Hpos _ _ E). split; [discriminate|intros; lia].
    + split; [intros _; lia|done].
  - intros e E. rewrite E in Hc, Hl. split; [lia|].
    simpl in Hl. destruct (pair_last_ts k ps); [congruence|discriminate].
Qed.

(** From the empty topology, every node's [first_seen] is the timestamp of
    the first event referencing its host and its [last_seen] the timestamp
    of the last one, whatever their order. *)
Theorem node_timestamps_from_events (ps : list packet) :
  exists t', run ps empty_topology = Some t'
    /\ forall h n, nodes t' !! h = Some n ->
         first_ts h ps = Some (first_seen n) /\ last_ts h ps = Some (last_seen n).
Proof.
  destruct (run_some ps empty_topology) as [t' Ht']. exists t'. split; [done|].
  intros h n Hn. destruct (run_first_last ps _ _ h Ht') as [Hf Hl].
  rewrite Hn in Hf, Hl. simpl in Hf, Hl. rewrite lookup_empty in Hf, Hl. simpl in Hf, Hl.
  split; [done|]. destruct (last_ts h ps); congruence.
Qed.

(** From the empty topology, every host's [packet_count] equals the total
    [count] of the edges leaving it plus that of the edges entering it
    (a self-loop edge counted on both sides). *)
Theorem packet_count_edge_weight (ps : list packet) :
  exists t', run ps empty_topology = Some t'
    /\ forall h, pc_of (nodes t') h = edge_weight (edges t') h.
Proof.
  destruct (run_some ps empty_topology) as [t' Ht']. exists t'. split; [done|].
  intros h.
  rewrite (run_additive (fun t => pc_of (nodes t) h) (occurrences h)
             (fun p t => ingest_pc p t h) ps _ _ Ht').
  rewrite (run_additive (fun t => edge_weight (edges t) h) (occurrences h)
             (fun p t => ingest_edge_weight p t h) ps _ _ Ht').
  unfold pc_of, edge_weight. simpl. rewrite lookup_empty, msum_empty. lia.
Qed.

Lemma run_empty_totals (ps : list packet) (now : Z) (t' : topology) :
  run ps empty_topology = Some t' ->
  total_packets (get_stats now t') = 2 * Z.of_nat (length ps)
  /\ msum (fun ke => count ke.2) (edges t') = Z.of_nat (length ps).
Proof.
  intros Ht'.
  pose proof (run_additive (fun t => msum (fun kn => packet_count kn.2) (nodes t))
                (fun _ => 2) ingest_total_packets ps _ _ Ht') as Hn.
  pose proof (run_additive (fun t => msum (fun ke => count ke.2) (edges t))
                (fun _ => 1) ingest_edge_total ps _ _ Ht') as He.
  unfold empty_topology in Hn, He. cbn [nodes edges] in Hn, He.
  rewrite msum_empty in Hn. rewrite msum_empty in He.
  assert (H2 : py_sum (map (fun _ => 2) ps) = 2 * Z.of_nat (length ps)).
  { clear. induction ps as [|p ps' IH]; [reflexivity|].
    cbn [map length]. unfold py_sum in *. cbn [fold_right]. rewrite IH. lia. }
  split.
  - unfold get_stats; simpl. rewrite map_map. unfold msum in Hn. rewrite Hn, H2. lia.
  - rewrite He, py_sum_ones. lia.
Qed.

(** From the empty topology, the stats route's [total_packets] is twice
    the number of ingested events (whatever the clock reading), and the
    edge counts sum to the number of events. *)
Theorem total_packets_twice_events (ps : list packet) (now : Z) :
  exists t', run ps empty_topology = Some t'
    /\ total_packets (get_stats now t') = 2 * Z.of_nat (length ps)
    /\ msum (fun ke => count ke.2) (edges t') = Z.of_nat (length ps).
Proof.
  destruct (run_some ps empty_topology) as [t' Ht']. exists t'. split; [done|].
  by apply run_empty_totals.
Qed.

(** From the empty topology, the hosts with a node are exactly the hosts
    named by the events, and the stats route's [total_nodes] is the number
    of distinct such hosts. *)
Theorem nodes_are_event_hosts (ps : list packet) (now : Z) :
  exists t', run ps empty_topology = Some t'
    /\ dom (nodes t') = list_to_set (hosts ps)
    /\ total_nodes (get_stats now t') = Z.of_nat (size (list_to_set (hosts ps) : gset string)).
Proof.
  destruct (run_some ps empty_topology) as [t' Ht']. exists t'. split; [done|].
  pose proof (run_dom ps _ _ Ht') as Hd. simpl in Hd. rewrite dom_empty_L in Hd.
  assert (Hd' : dom (nodes t') = list_to_set (hosts ps)) by (rewrite Hd; set_solver).
  split; [exact Hd'|].
  unfold get_stats; simpl. by rewrite <- Hd', size_dom.
Qed.

Lemma hosts_perm_in (ps ps' : list packet) x :
  Permutation ps ps' -> In x (hosts ps) -> In x (hosts ps').
Proof.
  unfold hosts. induction 1 as [|p l1 l2 _ IH|p q l|l1 l2 l3 _ IH1 _ IH2];
    simpl; rewrite ?in_app_iff; simpl; intuition.
Qed.

(** Reordering the events changes no count: two runs from the empty
    topology over permutations of the same events give every host the
    same [packet_count], every ordered pair the same edge [count], the
    same set of hosts, and the same [total_nodes] and [total_packets]. *)
Theorem counts_order_independent (ps ps' : list packet)
    (Hperm : Permutation ps ps') :
  exists t1 t2, run ps empty_topology = Some t1 /\ run ps' empty_topology = Some t2
    /\ (forall h, pc_of (nodes t1) h = pc_of (nodes t2) h)
    /\ (forall k, edge_count_of (edges t1) k = edge_count_of (edges t2) k)
    /\ dom (nodes t1) = dom (nodes t2)
    /\ (forall now, total_nodes (get_stats now t1) = total_nodes (get_stats now t2)
                    /\ total_packets (get_stats now t1) = total_packets (get_stats now t2)).
Proof.
  destruct (run_some ps empty_topology) as [t1 H1].
  destruct (run_some ps' empty_topology) as [t2 H2].
  exists t1, t2. split; [done|]. split; [done|].
  assert (Hd : dom (nodes t1) = dom (nodes t2)).
  { rewrite (run_dom _ _ _ H1), (run_dom _ _ _ H2). f_equal.
    apply set_eq. intros x. rewrite !elem_of_list_to_set, !list_elem_of_In.
    split; apply hosts_perm_in; [exact Hperm | symmetry; exact Hperm]. }
  split.
  { intros h. rewrite (run_pc _ _ _ h H1), (run_pc _ _ _ h H2).
    f_equal. apply py_sum_perm, Permutation_map, Hperm. }
  split.
  { intros k.
    rewrite (run_additive (fun t => edge_count_of (edges t) k) _
               (fun p t => ingest_edge_count p t k) _ _ _ H1).
    rewrite (run_additive (fun t => edge_count_of (edges t) k) _
               (fun p t => ingest_edge_count p t k) _ _ _ H2).
    f_equal. apply py_sum_perm, Permutation_map, Hperm. }
  split; [exact Hd|].
  intros now. split.
  - unfold get_stats; simpl. by rewrite <- !size_dom, Hd.
  - rewrite (proj1 (run_empty_totals _ now _ H1)), (proj1 (run_empty_totals _ now _ H2)).
    by rewrite (Permutation_length Hperm).
Qed.

Lemma counts_order_independent_witness :
  exists t1 t2,
    run [mk_packet "A" "B" 100; mk_packet "B" "A" 50] empty_topology = Some t1
    /\ run [mk_packet "B" "A" 50; mk_packet "A" "B" 100] empty_topology = Some t2
    /\ pc_of (nodes t1) "A"%string = pc_of (nodes t2) "A"%string.
Proof.
  destruct (counts_order_independent [mk_packet "A" "B" 100; mk_packet "B" "A" 50]
              [mk_packet "B" "A" 50; mk_packet "A" "B" 100] ltac:(apply perm_swap))
    as (t1 & t2 & H1 & H2 & Hpc & _).
  exists t1, t2. split; [exact H1|]. split; [exact H2|]. apply Hpc.
Defined.

(** ** Extra properties: the query routes *)

Lemma fmap_fst_map {K V} (l : list (K * V)) : l.*1 = map fst l.
Proof. induction l as [|x l IH]; simpl; [done|]. by rewrite <- IH. Qed.

Lemma NoDup_fst_filter {K V} (f : K * V -> bool) (l : list (K * V)) :
  NoDup (map fst l) -> NoDup (map fst (List.filter f l)).
Proof.
  induction l as [|[k v] l IH]; simpl; [done|].
  intros [Hn Hl]%NoDup_cons. destruct (f (k, v)); simpl; [|by apply IH].
  constructor; [|by apply IH].
  intros Hin. apply Hn. apply list_elem_of_In in Hin. apply list_elem_of_In.
  apply in_map_iff in Hin as ([k' v'] & <- & Hin).
  apply filter_In in Hin as [Hin _].
  apply in_map_iff. by exists (k', v').
Qed.

Lemma NoDup_fst_map_to_list' {K V} `{Countable K} (m : gmap K V) :
  NoDup (map fst (map_to_list m)).
Proof. rewrite <- fmap_fst_map. apply NoDup_fst_map_to_list. Qed.

(** The topology route never lists a host twice nor an ordered pair
    twice. *)
Theorem get_topology_no_duplicates (now : Z) (t : topology) :
  NoDup (map ip (view_nodes (get_topology now t)))
  /\ NoDup (map (fun e => (source e, target e)) (view_edges (get_topology now t))).
Proof.
  unfold get_topology; simpl. rewrite !map_map. split.
  - rewrite (map_ext _ fst) by (intros [? ?]; reflexivity).
    apply NoDup_fst_filter, NoDup_fst_map_to_list'.
  - rewrite (map_ext _ fst) by (intros [[? ?] ?]; reflexivity).
    apply NoDup_fst_filter, NoDup_fst_map_to_list'.
Qed.

Lemma filter_map_snd_length {K V} (f : V -> bool) (l : list (K * V)) :
  length (List.filter f (map snd l)) = length (List.filter (fun '(_, v) => f v) l).
Proof.
  induction l as [|[k v] l IH]; simpl; [done|]. destruct (f v); simpl; lia.
Qed.

(** The two routes agree: at the same clock reading, [active_connections]
    of the stats route is the number of edges the topology route lists. *)
Theorem routes_agree_on_edges (now : Z) (t : topology) :
  active_connections (get_stats now t) = Z.of_nat (length (view_edges (get_topology now t))).
Proof.
  unfold get_stats, get_topology; simpl.
  rewrite py_sum_ones, length_map, filter_map_snd_length. reflexivity.
Qed.

(** For one state, what the topology route lists at a clock reading is
    also listed at every earlier reading: entries only drop out as the
    clock advances. *)
Theorem get_topology_antitone_in_clock (now1 now2 : Z) (t : topology)
    (Hle : now1 <= now2) :
  (forall v, In v (view_nodes (get_topology now2 t)) -> In v (view_nodes (get_topology now1 t)))
  /\ (forall v, In v (view_edges (get_topology now2 t)) -> In v (view_edges (get_topology now1 t))).
Proof.
  split.
  - intros [h pc] (n & Hn & Hpc & Hlt)%get_topology_nodes_In.
    apply get_topology_nodes_In. exists n. repeat split; [done|done|lia].
  - intros [s d w] (e & He & Hw & Hlt)%get_topology_edges_In.
    apply get_topology_edges_In. exists e. repeat split; [done|done|lia].
Qed.

Lemma get_topology_antitone_in_clock_witness :
  In (mk_node_view "A" 1) (view_nodes (get_topology 20 topology_AB))
  /\ In (mk_node_view "A" 1) (view_nodes (get_topology 10 topology_AB))
  /\ In (mk_edge_view "A" "B" 1) (view_edges (get_topology 20 topology_AB))
  /\ In (mk_edge_view "A" "B" 1) (view_edges (get_topology 10 topology_AB)).
Proof.
  assert (Hn : In (mk_node_view "A" 1) (view_nodes (get_topology 20 topology_AB)))
    by (vm_compute; repeat (first [left; reflexivity | right])).
  assert (He : In (mk_edge_view "A" "B" 1) (view_edges (get_topology 20 topology_AB)))
    by (vm_compute; repeat (first [left; reflexivity | right])).
  destruct (get_topology_antitone_in_clock 10 20 topology_AB ltac:(lia)) as [Hmn Hme].
  split; [exact Hn|]. split; [exact (Hmn _ Hn)|]. split; [exact He|]. exact (Hme _ He).
Defined.

(** ** Line parsing and the capture loop

    Lines are modelled as strings of characters with code points below
    256 (a decoded line reduced to those characters).  The two regular
    expressions of the sources are built from literals and [\d+]
    groups, each [\d+] followed by a literal that is not a digit or by the
    end of the pattern.  Python's backtracking matcher can therefore only
    match each [\d+] greedily (a shorter run leaves a digit where the next
    literal is expected; at the end of the pattern it prefers the longest
    run), and the matchers below consume maximal digit runs.
    [re.search] tries the match at each position from left to right. *)

(** [\d] on the modelled characters. *)
Definition is_digit (c : Ascii.ascii) : bool :=
  Nat.leb 48 (Ascii.nat_of_ascii c) && Nat.leb (Ascii.nat_of_ascii c) 57.

(** [str.isspace] on the modelled characters: [\t \n \x0b \x0c \r],
    [\x1c]-[\x1f], space, [\x85] and [\xa0]. *)
Definition is_space (c : Ascii.ascii) : bool :=
  let n := Ascii.nat_of_ascii c in
  (Nat.leb 9 n && Nat.leb n 13) || (Nat.leb 28 n && Nat.leb n 32)
  || Nat.eqb n 133 || Nat.eqb n 160.

(** Leading and trailing whitespace removal: [line.strip()]. *)
Fixpoint lstrip (s : string) : string :=
  match s with
  | EmptyString => EmptyString
  | String c s' => if is_space c then lstrip s' else s
  end.

Fixpoint rstrip (s : string) : string :=
  match s with
  | EmptyString => EmptyString
  | String c s' =>
      match rstrip s' with
      | EmptyString => if is_space c then EmptyString else String c EmptyString
      | r => String c r
      end
  end.

Definition py_strip (s : string) : string := rstrip (lstrip s).

(** Maximal run of digits at the start of [s], and the rest. *)
Fixpoint span_digits (s : string) : string * string :=
  match s with
  | EmptyString => (EmptyString, EmptyString)
  | String c s' =>
      if is_digit c then let '(d, r) := span_digits s' in (String c d, r)
      else (EmptyString, s)
  end.

(** [\d+] *)
Definition match_digits (s : string) : option (string * string) :=
  let '(d, r) := span_digits s in
  match d with EmptyString => None | _ => Some (d, r) end.

(** A literal. *)
Fixpoint match_lit (lit s : string) : option string :=
  match lit with
  | EmptyString => Some s
  | String c lit' =>
      match s with
      | EmptyString => None
      | String c' s' => if Ascii.eqb c c' then match_lit lit' s' else None
      end
  end.

(** [(\d+\.\d+\.\d+\.\d+)]: the group's text and the rest. *)
Definition match_quad (s : string) : option (string * string) :=
  '(d1, r) ← match_digits s;
  r ← match_lit "." r;
  '(d2, r) ← match_digits r;
  r ← match_lit "." r;
  '(d3, r) ← match_digits r;
  r ← match_lit "." r;
  '(d4, r) ← match_digits r;
  Some (String.append d1 (String.append "." (String.append d2
          (String.append "." (String.append d3 (String.append "." d4))))), r).

(** [IP (\d+\.\d+\.\d+\.\d+)\.\d+ > (\d+\.\d+\.\d+\.\d+)\.\d+:] matched at
    the start of [s]: the two groups. *)
Definition tcpdump_match_at (s : string) : option (string * string) :=
  r ← match_lit "IP " s;
  '(g1, r) ← match_quad r;
  r ← match_lit "." r;
  '(_, r) ← match_digits r;
  r ← match_lit " > " r;
  '(g2, r) ← match_quad r;
  r ← match_lit "." r;
  '(_, r) ← match_digits r;
  _ ← match_lit ":" r;
  Some (g1, g2).

(** [re.search]: the first position where the pattern matches. *)
Fixpoint re_search {A} (m : string -> option A) (s : string) : option A :=
  match m s with
  | Some a => Some a
  | None => match s with EmptyString => None | String _ s' => re_search m s' end
  end.

(** [parse_tcpdump_line]; [clock] is the [time.time()] reading, taken
    only when the line matches. *)
Definition parse_tcpdump_line (clock : Z) (line : string) : option packet :=
  match re_search tcpdump_match_at line with
  | Some (s, d) => Some (mk_packet s d clock)
  | None => None
  end.

(** [capture_packets]: each line of the capture's output (decoded) with
    the clock reading taken while parsing it; matching lines are
    aggregated, the others skipped. *)
Fixpoint capture_packets (lines : list (string * Z)) (t : topology) : option topology :=
  match lines with
  | [] => Some t
  | (line, clock) :: rest =>
      match parse_tcpdump_line clock (py_strip line) with
      | Some p => t' ← aggregate_packet p t; capture_packets rest t'
      | None => capture_packets rest t
      end
  end.

(** ** [src/backend/monitor.py]

    The module imports [sys], [json], [defaultdict] and [Lock], and [re]
    inside [parse_debug_line], but never [time]: each evaluation of
    [time.time()] raises [NameError]. *)
Inductive py_result (A : Type) :=
  | Ok (a : A)
  | NameError.
Arguments Ok {A} a.
Arguments NameError {A}.

(** [IPv4: (\d+\.\d+\.\d+\.\d+) -> (\d+\.\d+\.\d+\.\d+)] at the start of
    [s]. *)
Definition debug_match_at (s : string) : option (string * string) :=
  r ← match_lit "IPv4: " s;
  '(g1, r) ← match_quad r;
  r ← match_lit " -> " r;
  '(g2, _) ← match_quad r;
  Some (g1, g2).

(** [parse_debug_line]: a matching line reaches [time.time()]. *)
Definition parse_debug_line (line : string) : py_result (option packet) :=
  if negb (String.prefix "DEBUG:" line) then Ok None
  else match re_search debug_match_at line with
       | Some _ => NameError
       | None => Ok None
       end.

(** [aggregate_packet] of [monitor.py]: [now = time.time()] raises before
    any update. *)
Definition monitor_aggregate_packet (p : packet) (t : topology) : py_result topology :=
  NameError.

(** The module-level loop [for line in sys.stdin: ...]. *)
Fixpoint monitor_main (lines : list string) (t : topology) : py_result topology :=
  match lines with
  | [] => Ok t
  | line :: rest =>
      match parse_debug_line (py_strip line) with
      | NameError => NameError
      | Ok None => monitor_main rest t
      | Ok (Some p) =>
          match monitor_aggregate_packet p t with
          | NameError => NameError
          | Ok t' => monitor_main rest t'
          end
      end
  end.

Example parse_tcpdump_sample :
  parse_tcpdump_line 7
    "12:00:01.000001 IP 10.8.0.2.51234 > 93.184.216.34.443: Flags [S], seq 1"
  = Some (mk_packet "10.8.0.2" "93.184.216.34" 7).
Proof. reflexivity. Qed.

Example parse_tcpdump_ipv6 :
  parse_tcpdump_line 7 "12:00:01.000001 IP6 ::1.5353 > ::1.80: UDP" = None.
Proof. reflexivity. Qed.

Example monitor_sample :
  monitor_main ["DEBUG: dst=aa src=bb type=IPv4 IPv4: 80.6.5.4 -> 50.9.8.7"%string]
    empty_topology = NameError.
Proof. reflexivity. Qed.

(** ** Matcher lemmas *)

Local Open Scope string_scope.

(** Strings of characters all different from [c]. *)
Fixpoint char_free (c : Ascii.ascii) (s : string) : bool :=
  match s with
  | EmptyString => true
  | String c' s' => negb (Ascii.eqb c c') && char_free c s'
  end.

Fixpoint all_digits (s : string) : bool :=
  match s with
  | EmptyString => true
  | String c s' => is_digit c && all_digits s'
  end.

(** A non-empty run of digits. *)
Definition digit_run (s : string) : bool :=
  match s with EmptyString => false | _ => all_digits s end.

(** [s] does not start with a digit. *)
Definition no_digit_head (s : string) : bool :=
  match s with EmptyString => true | String c _ => negb (is_digit c) end.

Lemma match_lit_app lit s : match_lit lit (lit ++ s) = Some s.
Proof.
  induction lit as [|c lit IH]; simpl; [done|]. by rewrite Ascii.eqb_refl.
Qed.

Lemma match_lit_some lit s r : match_lit lit s = Some r -> s = lit ++ r.
Proof.
  revert s. induction lit as [|c lit IH]; intros s; simpl; [by intros [= ->]|].
  destruct s as [|c' s]; [discriminate|].
  destruct (Ascii.eqb c c') eqn:E; [|discriminate].
  apply Ascii.eqb_eq in E as <-. intros H. by rewrite (IH _ H).
Qed.

Lemma span_digits_app d s :
  all_digits d = true -> no_digit_head s = true -> span_digits (d ++ s) = (d, s).
Proof.
  induction d as [|c d IH]; simpl.
  - intros _. destruct s as [|c s]; simpl; [done|].
    intros Hc. apply negb_true_iff in Hc. by rewrite Hc.
  - intros [Hc Hd]%andb_true_iff Hs. rewrite Hc, IH by done. done.
Qed.

Lemma match_digits_app d s :
  digit_run d = true -> no_digit_head s = true -> match_digits (d ++ s) = Some (d, s).
Proof.
  intros Hd Hs. unfold match_digits. destruct d as [|c d]; [discriminate|].
  by rewrite span_digits_app.
Qed.

Lemma span_digits_spec s d r :
  span_digits s = (d, r) -> s = d ++ r /\ all_digits d = true.
Proof.
  revert d r. induction s as [|c s IH]; intros d r; simpl.
  - intros [= <- <-]. done.
  - destruct (is_digit c) eqn:Hc.
    + destruct (span_digits s) as [d' r'] eqn:E. intros [= <- <-].
      destruct (IH _ _ eq_refl) as [-> Hd]. simpl. by rewrite Hc, Hd.
    + intros [= <- <-]. done.
Qed.

Lemma match_digits_some s d r :
  match_digits s = Some (d, r) -> s = d ++ r /\ digit_run d = true.
Proof.
  unfold match_digits. destruct (span_digits s) as [d' r'] eqn:E.
  destruct (span_digits_spec _ _ _ E) as [-> Hd].
  destruct d' as [|c d']; [discriminate|]. intros [= <- <-]. done.
Qed.

Lemma match_quad_app a1 a2 a3 a4 s :
  forallb digit_run [a1; a2; a3; a4] = true -> no_digit_head s = true ->
  match_quad (a1 ++ "." ++ a2 ++ "." ++ a3 ++ "." ++ a4 ++ s)
  = Some (a1 ++ "." ++ a2 ++ "." ++ a3 ++ "." ++ a4, s).
Proof.
  simpl. intros H Hs. repeat (apply andb_true_iff in H as [? H]).
  unfold match_quad.
  rewrite match_digits_app by done. cbn [mbind option_bind].
  rewrite match_lit_app. cbn [mbind option_bind].
  rewrite match_digits_app by done. cbn [mbind option_bind].
  rewrite match_lit_app. cbn [mbind option_bind].
  rewrite match_digits_app by done. cbn [mbind option_bind].
  rewrite match_lit_app. cbn [mbind option_bind].
  rewrite match_digits_app by done. cbn [mbind option_bind]. reflexivity.
Qed.

Lemma match_quad_some s g r :
  match_quad s = Some (g, r) ->
  exists a1 a2 a3 a4, forallb digit_run [a1; a2; a3; a4] = true
    /\ g = a1 ++ "." ++ a2 ++ "." ++ a3 ++ "." ++ a4.
Proof.
  unfold match_quad.
  destruct (match_digits s) as [[d1 r1]|] eqn:E1; cbn [mbind option_bind]; [|discriminate].
  destruct (match_lit "." r1) as [r1'|]; cbn [mbind option_bind]; [|discriminate].
  destruct (match_digits r1') as [[d2 r2]|] eqn:E2; cbn [mbind option_bind]; [|discriminate].
  destruct (match_lit "." r2) as [r2'|]; cbn [mbind option_bind]; [|discriminate].
  destruct (match_digits r2') as [[d3 r3]|] eqn:E3; cbn [mbind option_bind]; [|discriminate].
  destruct (match_lit "." r3) as [r3'|]; cbn [mbind option_bind]; [|discriminate].
  destruct (match_digits r3') as [[d4 r4]|] eqn:E4; cbn [mbind option_bind]; [|discriminate].
  intros [= <- <-].
  apply match_digits_some in E1 as [_ H1]. apply match_digits_some in E2 as [_ H2].
  apply match_digits_some in E3 as [_ H3]. apply match_digits_some in E4 as [_ H4].
  exists d1, d2, d3, d4. simpl. by rewrite H1, H2, H3, H4.
Qed.

Lemma re_search_some {A} (m : string -> option A) s a :
  re_search m s = Some a -> exists s1 s2, s = s1 ++ s2 /\ m s2 = Some a.
Proof.
  induction s as [|c s IH]; simpl.
  - destruct (m "") eqn:E; [intros [= <-]; by exists "", ""|discriminate].
  - destruct (m (String c s)) eqn:E.
    + intros [= <-]. by exists "", (String c s).
    + intros H. destruct (IH H) as (s1 & s2 & -> & Hm). by exists (String c s1), s2.
Qed.

Lemma tcpdump_match_at_head s c s' :
  s = String c s' -> Ascii.eqb "I"%char c = false -> tcpdump_match_at s = None.
Proof. intros -> Hc. unfold tcpdump_match_at. cbn [match_lit]. by rewrite Hc. Qed.

Lemma re_search_tcpdump_skip pre s :
  char_free "I"%char pre = true ->
  re_search tcpdump_match_at (pre ++ s) = re_search tcpdump_match_at s.
Proof.
  induction pre as [|c pre IH]; simpl; [done|].
  intros [Hc Hpre]%andb_true_iff. apply negb_true_iff in Hc.
  rewrite (tcpdump_match_at_head _ c (pre ++ s) eq_refl Hc). by apply IH.
Qed.

Lemma substring_app_length s1 s2 n :
  String.substring (String.length s1) n (s1 ++ s2) = String.substring 0 n s2.
Proof. induction s1 as [|c s1 IH]; simpl; [done|]. exact IH. Qed.

Lemma re_search_hit {A} (m : string -> option A) s a :
  m s = Some a -> re_search m s = Some a.
Proof. destruct s; simpl; intros ->; reflexivity. Qed.

Lemma tcpdump_match_at_app a1 a2 a3 a4 p1 b1 b2 b3 b4 p2 rest :
  forallb digit_run [a1; a2; a3; a4; p1; b1; b2; b3; b4; p2] = true ->
  tcpdump_match_at ("IP " ++ a1 ++ "." ++ a2 ++ "." ++ a3 ++ "." ++ a4 ++ "." ++ p1
                    ++ " > " ++ b1 ++ "." ++ b2 ++ "." ++ b3 ++ "." ++ b4 ++ "." ++ p2
                    ++ ":" ++ rest)
  = Some (a1 ++ "." ++ a2 ++ "." ++ a3 ++ "." ++ a4, b1 ++ "." ++ b2 ++ "." ++ b3 ++ "." ++ b4).
Proof.
  simpl. intros H. repeat (apply andb_true_iff in H as [? H]).
  unfold tcpdump_match_at.
  rewrite match_lit_app. cbn [mbind option_bind].
  rewrite match_quad_app by (simpl; rewrite ?andb_true_iff; tauto). cbn [mbind option_bind].
  rewrite match_lit_app. cbn [mbind option_bind].
  rewrite match_digits_app by done. cbn [mbind option_bind].
  rewrite match_lit_app. cbn [mbind option_bind].
  rewrite match_quad_app by (simpl; rewrite ?andb_true_iff; tauto). cbn [mbind option_bind].
  rewrite match_lit_app. cbn [mbind option_bind].
  rewrite match_digits_app by done. cbn [mbind option_bind].
  rewrite match_lit_app. reflexivity.
Qed.

Lemma tcpdump_match_at_some s g1 g2 :
  tcpdump_match_at s = Some (g1, g2) ->
  exists r, s = "IP " ++ r
    /\ (exists a1 a2 a3 a4, forallb digit_run [a1; a2; a3; a4] = true
          /\ g1 = a1 ++ "." ++ a2 ++ "." ++ a3 ++ "." ++ a4)
    /\ (exists b1 b2 b3 b4, forallb digit_run [b1; b2; b3; b4] = true
          /\ g2 = b1 ++ "." ++ b2 ++ "." ++ b3 ++ "." ++ b4).
Proof.
  unfold tcpdump_match_at.
  destruct (match_lit "IP " s) as [r|] eqn:E0; cbn [mbind option_bind]; [|discriminate].
  destruct (match_quad r) as [[h1 r1]|] eqn:E1; cbn [mbind option_bind]; [|discriminate].
  destruct (match_lit "." r1) as [r2|]; cbn [mbind option_bind]; [|discriminate].
  destruct (match_digits r2) as [[d r3]|]; cbn [mbind option_bind]; [|discriminate].
  destruct (match_lit " > " r3) as [r4|]; cbn [mbind option_bind]; [|discriminate].
  destruct (match_quad r4) as [[h2 r5]|] eqn:E2; cbn [mbind option_bind]; [|discriminate].
  destruct (match_lit "." r5) as [r6|]; cbn [mbind option_bind]; [|discriminate].
  destruct (match_digits r6) as [[d' r7]|]; cbn [mbind option_bind]; [|discriminate].
  destruct (match_lit ":" r7); cbn [mbind option_bind]; [|discriminate].
  intros [= <- <-]. exists r. split; [by apply match_lit_some|].
  split; [exact (match_quad_some _ _ _ E1)|exact (match_quad_some _ _ _ E2)].
Qed.

(** Lines of the capture's output that match, as events, in order. *)
Fixpoint matched_packets (lines : list (string * Z)) : list packet :=
  match lines with
  | [] => []
  | (line, clock) :: rest =>
      match parse_tcpdump_line clock (py_strip line) with
      | Some p => p :: matched_packets rest
      | None => matched_packets rest
      end
  end.

(** [\d+\.\d+\.\d+\.\d+]: four non-empty digit runs joined by dots. *)
Definition dotted_quad (h : string) : Prop :=
  exists a1 a2 a3 a4, forallb digit_run [a1; a2; a3; a4] = true
    /\ h = a1 ++ "." ++ a2 ++ "." ++ a3 ++ "." ++ a4.

(** Lines on which the monitor's parser reaches [time.time()]. *)
Definition debug_line_matches (line : string) : bool :=
  let s := py_strip line in
  String.prefix "DEBUG:" s && bool_decide (is_Some (re_search debug_match_at s)).

(** ** Parser, capture loop and monitor *)

(** Round trip of [parse_tcpdump_line]: a line carrying
    [IP a1.a2.a3.a4.p1 > b1.b2.b3.b4.p2:] after a prefix without the
    letter [I] parses to the two dotted quads, stamped with the clock. *)
Theorem parse_tcpdump_roundtrip (clock : Z) (pre a1 a2 a3 a4 p1 b1 b2 b3 b4 p2 rest : string)
  (Hpre : char_free "I"%char pre = true)
  (Hdig : forallb digit_run [a1; a2; a3; a4; p1; b1; b2; b3; b4; p2] = true) :
  parse_tcpdump_line clock
    (pre ++ "IP " ++ a1 ++ "." ++ a2 ++ "." ++ a3 ++ "." ++ a4 ++ "." ++ p1
         ++ " > " ++ b1 ++ "." ++ b2 ++ "." ++ b3 ++ "." ++ b4 ++ "." ++ p2 ++ ":" ++ rest)
  = Some (mk_packet (a1 ++ "." ++ a2 ++ "." ++ a3 ++ "." ++ a4)
                    (b1 ++ "." ++ b2 ++ "." ++ b3 ++ "." ++ b4) clock).
Proof.
  unfold parse_tcpdump_line. rewrite re_search_tcpdump_skip by exact Hpre.
  rewrite (re_search_hit _ _ _ (tcpdump_match_at_app _ _ _ _ _ _ _ _ _ _ rest Hdig)).
  reflexivity.
Qed.

Lemma parse_tcpdump_roundtrip_witness :
  char_free "I"%char "12:00:01.000001 " = true
  /\ forallb digit_run ["10"; "8"; "0"; "2"; "51234"; "93"; "184"; "216"; "34"; "443"] = true
  /\ parse_tcpdump_line 7
       ("12:00:01.000001 " ++ "IP " ++ "10" ++ "." ++ "8" ++ "." ++ "0" ++ "." ++ "2" ++ "."
        ++ "51234" ++ " > " ++ "93" ++ "." ++ "184" ++ "." ++ "216" ++ "." ++ "34" ++ "."
        ++ "443" ++ ":" ++ " Flags [S]")
     = Some (mk_packet ("10" ++ "." ++ "8" ++ "." ++ "0" ++ "." ++ "2")
                       ("93" ++ "." ++ "184" ++ "." ++ "216" ++ "." ++ "34") 7).
Proof.
  split; [reflexivity|]. split; [reflexivity|].
  apply parse_tcpdump_roundtrip; reflexivity.
Defined.

Lemma parse_tcpdump_some (clock : Z) (line : string) (p : packet) :
  parse_tcpdump_line clock line = Some p ->
  timestamp p = clock
  /\ (exists s1 s2, line = s1 ++ "IP " ++ s2)
  /\ dotted_quad (src_ip p) /\ dotted_quad (dst_ip p).
Proof.
  intros Hp. unfold parse_tcpdump_line in Hp.
  destruct (re_search tcpdump_match_at line) as [[g1 g2]|] eqn:E; [|discriminate].
  injection Hp as <-. simpl.
  destruct (re_search_some _ _ _ E) as (s1 & s2 & -> & Hm).
  destruct (tcpdump_match_at_some _ _ _ Hm) as (r & -> & H1 & H2).
  split; [done|]. split; [by exists s1, r|]. done.
Qed.

(** What [parse_tcpdump_line] returns: the line contains [IP ], both
    addresses are dotted quads of non-empty digit runs, and the timestamp
    is the clock reading. *)
Theorem parse_tcpdump_shape (clock : Z) (line : string) (p : packet)
  (Hp : parse_tcpdump_line clock line = Some p) :
  timestamp p = clock
  /\ (exists s1 s2, line = s1 ++ "IP " ++ s2)
  /\ (exists a1 a2 a3 a4, forallb digit_run [a1; a2; a3; a4] = true
        /\ src_ip p = a1 ++ "." ++ a2 ++ "." ++ a3 ++ "." ++ a4)
  /\ (exists b1 b2 b3 b4, forallb digit_run [b1; b2; b3; b4] = true
        /\ dst_ip p = b1 ++ "." ++ b2 ++ "." ++ b3 ++ "." ++ b4).
Proof. exact (parse_tcpdump_some _ _ _ Hp). Qed.

Lemma parse_tcpdump_shape_witness :
  parse_tcpdump_line 7
    "12:00:01.000001 IP 10.8.0.2.51234 > 93.184.216.34.443: Flags [S], seq 1"
  = Some (mk_packet "10.8.0.2" "93.184.216.34" 7)
  /\ timestamp (mk_packet "10.8.0.2" "93.184.216.34" 7) = 7.
Proof.
  split; [reflexivity|].
  apply (parse_tcpdump_shape 7
    "12:00:01.000001 IP 10.8.0.2.51234 > 93.184.216.34.443: Flags [S], seq 1").
  reflexivity.
Defined.

(** A line without the text [IP ] (an IPv6 line, [IP6 ...], or any other
    output of the capture) gives no packet. *)
Theorem parse_tcpdump_needs_IP (clock : Z) (line : string)
  (Hno : String.index 0 "IP " line = None) :
  parse_tcpdump_line clock line = None.
Proof.
  destruct (parse_tcpdump_line clock line) as [p|] eqn:Hp; [|done].
  destruct (parse_tcpdump_some _ _ _ Hp) as (_ & (s1 & s2 & ->) & _).
  exfalso.
  apply (String.index_correct3 0 (String.length s1) "IP " (s1 ++ "IP " ++ s2) Hno);
    [discriminate|lia|].
  rewrite substring_app_length. by destruct s2.
Qed.

Lemma parse_tcpdump_needs_IP_witness :
  String.index 0 "IP " "12:00:01.000001 IP6 ::1.5353 > ::1.80: UDP" = None
  /\ parse_tcpdump_line 7 "12:00:01.000001 IP6 ::1.5353 > ::1.80: UDP" = None.
Proof.
  split; [reflexivity|]. apply parse_tcpdump_needs_IP. reflexivity.
Defined.

(** [capture_packets] aggregates exactly the lines that parse, in the
    order they arrive, and nothing else: lines that do not match leave the
    topology unchanged. *)
Lemma capture_packets_run (lines : list (string * Z)) (t : topology) :
  capture_packets lines t = run (matched_packets lines) t.
Proof.
  revert t. induction lines as [|[line clock] rest IH]; intros t; [done|].
  simpl. destruct (parse_tcpdump_line clock (py_strip line)); [|apply IH].
  cbn [run]. destruct (aggregate_packet p t); cbn [mbind option_bind]; [apply IH|done].
Qed.


Lemma matched_packets_In (lines : list (string * Z)) (p : packet) :
  In p (matched_packets lines) ->
  exists line clock, In (line, clock) lines /\ parse_tcpdump_line clock (py_strip line) = Some p.
Proof.
  induction lines as [|[line clock] rest IH]; simpl; [done|].
  destruct (parse_tcpdump_line clock (py_strip line)) as [q|] eqn:E.
  - intros [<-|Hin]; [by exists line, clock; split; [left|]|].
    destruct (IH Hin) as (l & c & ? & ?). exists l, c. by split; [right|].
  - intros Hin. destruct (IH Hin) as (l & c & ? & ?). exists l, c. by split; [right|].
Qed.

Lemma hosts_In (ps : list packet) (h : string) :
  In h (hosts ps) -> exists p, In p ps /\ (h = src_ip p \/ h = dst_ip p).
Proof.
  unfold hosts. rewrite <- flat_map_concat_map. intros Hin.
  apply in_flat_map in Hin as (p & Hp & Hh). exists p. split; [done|].
  simpl in Hh. intuition.
Qed.

(** The capture loop from the empty topology: [total_packets] is twice
    the number of lines that matched, and every host with a node is a
    dotted IPv4 quad taken from one of the lines. *)
Theorem capture_from_empty (lines : list (string * Z)) (now : Z) :
  exists t', capture_packets lines empty_topology = Some t'
    /\ total_packets (get_stats now t') = 2 * Z.of_nat (length (matched_packets lines))
    /\ (forall h, h ∈ dom (nodes t') -> dotted_quad h).
Proof.
  rewrite capture_packets_run.
  destruct (run_some (matched_packets lines) empty_topology) as [t' Ht'].
  exists t'. split; [done|]. split; [exact (proj1 (run_empty_totals _ now _ Ht'))|].
  intros h Hh. rewrite (run_dom _ _ _ Ht') in Hh. simpl in Hh.
  rewrite dom_empty_L in Hh.
  assert (Hin : In h (hosts (matched_packets lines))).
  { apply list_elem_of_In. set_solver. }
  destruct (hosts_In _ _ Hin) as (p & Hp & Hsd).
  destruct (matched_packets_In _ _ Hp) as (line & clock & _ & Hparse).
  destruct (parse_tcpdump_some _ _ _ Hparse) as (_ & _ & Hs & Hd).
  by destruct Hsd as [->| ->].
Qed.

(** The loop of [monitor.py] never changes its topology: it ends with the
    topology it started with when no stripped line starts with [DEBUG:] and
    matches the [IPv4:] pattern, and raises [NameError] otherwise. *)
Theorem monitor_never_updates (lines : list string) (t : topology) :
  monitor_main lines t = if existsb debug_line_matches lines then NameError else Ok t.
Proof.
  induction lines as [|line rest IH]; [done|].
  simpl. unfold debug_line_matches, parse_debug_line.
  destruct (String.prefix "DEBUG:" (py_strip line)); simpl; [|exact IH].
  destruct (re_search debug_match_at (py_strip line)); simpl; [done|exact IH].
Qed.

(** ** The topology route over a history of events *)

(** After ingesting [ps] from the empty topology, the topology route at
    clock [now] lists a host exactly when the last event referencing it is
    less than [STALE_THRESHOLD] seconds old, with the number of times the
    events name it; and an ordered pair exactly when its last event is
    that recent, with the number of events on the pair. *)
Theorem topology_route_from_events (ps : list packet) (now : Z) :
  exists t', run ps empty_topology = Some t'
    /\ (forall h pc, In (mk_node_view h pc) (view_nodes (get_topology now t'))
         <-> (exists l, last_ts h ps = Some l /\ now - l < STALE_THRESHOLD)
             /\ pc = py_sum (map (occurrences h) ps))
    /\ (forall s d w, In (mk_edge_view s d w) (view_edges (get_topology now t'))
         <-> (exists l, pair_last_ts (s, d) ps = Some l /\ now - l < STALE_THRESHOLD)
             /\ w = pair_events (s, d) ps).
Proof.
  destruct (run_some ps empty_topology) as [t' Ht']. exists t'. split; [done|].
  split.
  - intros h pc. rewrite get_topology_nodes_In.
    pose proof (run_pc ps _ _ h Ht') as Hpc.
    destruct (run_first_last ps _ _ h Ht') as [_ Hl].
    unfold pc_of in Hpc. simpl in Hpc, Hl. rewrite lookup_empty in Hpc, Hl. simpl in Hl.
    split.
    + intros (n & Hn & -> & Hlt). rewrite Hn in Hpc, Hl. simpl in Hl.
      split; [|lia]. exists (last_seen n).
      split; [by destruct (last_ts h ps); congruence|done].
    + intros [(l & Hlast & Hlt) ->]. rewrite Hlast in Hl.
      destruct (nodes t' !! h) as [n|] eqn:Hn; [|discriminate].
      injection Hl as Hl. exists n. split; [done|]. split; [lia|]. by rewrite Hl.
  - intros s d w. rewrite get_topology_edges_In.
    pose proof (run_additive (fun t => edge_count_of (edges t) (s, d))
                  (fun p => if decide ((src_ip p, dst_ip p) = (s, d)) then 1 else 0)
                  (fun p t => ingest_edge_count p t (s, d)) ps _ _ Ht') as Hc.
    pose proof (run_last_active ps _ _ (s, d) Ht') as Hl.
    unfold edge_count_of in Hc. simpl in Hc, Hl. rewrite lookup_empty in Hc, Hl.
    fold (pair_events (s, d) ps) in Hc. simpl in Hl.
    split.
    + intros (e & He & -> & Hlt). rewrite He in Hc, Hl. simpl in Hl.
      split; [|lia]. exists (last_active e).
      split; [by destruct (pair_last_ts (s, d) ps); congruence|done].
    + intros [(l & Hlast & Hlt) ->]. rewrite Hlast in Hl.
      destruct (edges t' !! (s, d)) as [e|] eqn:He; [|discriminate].
      injection Hl as Hl. exists e. split; [done|]. split; [lia|]. by rewrite Hl.
Qed.
